(** * FeatherLocalDataSet: a shallow embedding of
      [kedro/contrib/io/feather/feather_local.py]

    The adapter is four short methods on top of [AbstractVersionedDataSet].
    Python objects become records, dictionaries become [gmap]s, methods become
    computations in a state-and-exception monad over a [World] that holds the
    instance, the file system, the clock and a log of the calls made. *)

From Stdlib Require Import String Ascii.
From Stdlib Require OrderedTypeEx.
From stdpp Require Import gmap strings list fin_maps sorting pretty.

Open Scope string_scope.
Open Scope list_scope.

(** ** Exceptions *)

(** The exception classes that occur: the three of [kedro.io], the [OSError]
    family raised by [pathlib] and [open], and a bucket for whatever a library
    raises. *)
Inductive ExcClass :=
| DataSetError
| VersionNotFoundError
| InconsistentVersionError
| OSError
| FileNotFoundError
| FileExistsError
| NotADirectoryError
| IsADirectoryError
| PermissionError
| LibraryError (name : string).

#[global] Instance ExcClass_eq_dec : EqDecision ExcClass.
Proof. solve_decision. Defined.

(** [issubclass c base]: the two versioning errors derive from [DataSetError],
    the file errors from [OSError]. *)
Definition issubclass (c base : ExcClass) : bool :=
  if decide (c = base) then true
  else match base, c with
       | DataSetError, (VersionNotFoundError | InconsistentVersionError) => true
       | OSError, (FileNotFoundError | FileExistsError | NotADirectoryError
                   | IsADirectoryError | PermissionError) => true
       | _, _ => false
       end.

(** A raised exception: its class, [str(exc)] and [__cause__]. *)
#[warnings="-register-all"]
Inductive Exc := mkExc (cls : ExcClass) (msg : string) (cause : option Exc).

Definition exc_class (e : Exc) : ExcClass := let 'mkExc c _ _ := e in c.
Definition exc_msg (e : Exc) : string := let 'mkExc _ m _ := e in m.
Definition exc_cause (e : Exc) : option Exc := let 'mkExc _ _ c := e in c.

Definition isinstance (e : Exc) (base : ExcClass) : bool :=
  issubclass (exc_class e) base.

(** ** Values of the data model *)

(** Option values ([Any] in the source). *)
Inductive PyVal :=
| PyNone
| PyBool (b : bool)
| PyInt (z : Z)
| PyStr (s : string)
| PyStrs (l : list string).

Abbreviation Args := (gmap string PyVal).

(** [kedro.io.core.Version]: a pair of optional identifiers. *)
Record Version := mkVersion { load : option string; save : option string }.

(** A [pathlib] path, already split into its components. *)
Record Path := mkPath { anchored : bool; parts : list string }.

#[global] Instance Path_eq_dec : EqDecision Path.
Proof. solve_decision. Defined.

Definition Path_parent (p : Path) : Path :=
  mkPath (anchored p) (removelast (parts p)).

Definition Path_name (p : Path) : string := List.last (parts p) "".

(** [p / a / b]. *)
Definition Path_join (p : Path) (names : list string) : Path :=
  mkPath (anchored p) (parts p ++ names).

(** [Path(s)] on a POSIX system: a leading slash anchors the path, empty
    components and [.] are dropped. *)
Fixpoint split_slash (s : string) (cur : string) : list string :=
  match s with
  | EmptyString => [cur]
  | String c s' =>
      if Ascii.eqb c "/"%char then cur :: split_slash s' ""
      else split_slash s' (cur +:+ String c "")
  end.

Definition Path_of_string (s : string) : Path :=
  mkPath (String.prefix "/" s)
         (List.filter (fun c => negb (String.eqb c "" || String.eqb c "."))
                      (split_slash s "")).

Definition Path_str (p : Path) : string :=
  match anchored p, parts p with
  | false, [] => "."
  | false, ps => String.concat "/" ps
  | true, ps => "/" +:+ String.concat "/" ps
  end.

(** The instance: what [__init__] stores. *)
Record FeatherLocalDataSet := mkDataSet {
  _filepath : Path;
  _version : option Version;
  _load_args : Args
}.

(** ** The world *)

Definition Bytes := list Byte.byte.

Inductive Node := Dir | File (content : Bytes).

(** Calls that reach outside the adapter, in the order they are made. *)
Inductive Event :=
| EvGetLoadPath
| EvGetSavePath
| EvCheckPaths (load_path save_path : Path)
| EvMkdir (p : Path)
| EvToFeather (p : Path)
| EvReadFeather (p : Path) (args : Args)
| EvIsFile (p : Path).

(** [nodes] is keyed by the components of absolute paths; the root directory
    is implicit. *)
Record World := mkWorld {
  this : FeatherLocalDataSet;
  cwd : list string;
  nodes : gmap (list string) Node;
  clock : nat;
  trace : list Event
}.

Definition set_nodes (f : gmap (list string) Node) (w : World) : World :=
  mkWorld (this w) (cwd w) f (clock w) (trace w).
Definition set_clock (n : nat) (w : World) : World :=
  mkWorld (this w) (cwd w) (nodes w) n (trace w).
Definition log (ev : Event) (w : World) : World :=
  mkWorld (this w) (cwd w) (nodes w) (clock w) (trace w ++ [ev]).

(** ** The monad: state with exceptions *)

Inductive Result (A : Type) := Ok (a : A) | Raised (e : Exc).
Arguments Ok {A} a.
Arguments Raised {A} e.

Definition M (A : Type) : Type := World -> Result A * World.

#[global] Instance M_ret : MRet M := fun A a w => (Ok a, w).
#[global] Instance M_bind : MBind M := fun A B f c w =>
  match c w with
  | (Ok a, w') => f a w'
  | (Raised e, w') => (Raised e, w')
  end.

Definition raise {A} (e : Exc) : M A := fun w => (Raised e, w).
Definition get_world : M World := fun w => (Ok w, w).
Definition modify (f : World -> World) : M unit := fun w => (Ok tt, f w).
Definition emit (ev : Event) : M unit := modify (log ev).
Definition lift_result {A} (r : Exc + A) : M A :=
  match r with inl e => raise e | inr a => mret a end.

(** [try: x = body / except cls: handler / (then) rest x].  Effects of [body]
    up to the raise are kept. *)
Definition try_except {A B} (body : M A) (cls : ExcClass)
    (handler : M B) (rest : A -> M B) : M B := fun w =>
  match body w with
  | (Ok a, w') => rest a w'
  | (Raised e, w') => if isinstance e cls then handler w' else (Raised e, w')
  end.

(** [try: body / except Exception as exc: handler exc]. *)
Definition try_catch_all {A} (body : M A) (handler : Exc -> M A) : M A := fun w =>
  match body w with
  | (Ok a, w') => (Ok a, w')
  | (Raised e, w') => handler e w'
  end.

(** ** The platform: [pathlib] and files *)

(** [Path.absolute()]: prefix the working directory unless anchored. *)
Definition absolute_in (wd : list string) (p : Path) : Path :=
  if anchored p then p else mkPath true (wd ++ parts p).

Definition abs_parts (w : World) (p : Path) : list string :=
  parts (absolute_in (cwd w) p).

Definition fs_lookup (fs : gmap (list string) Node) (k : list string) : option Node :=
  match k with
  | [] => Some Dir
  | _ => fs !! k
  end.

Definition is_file_at (fs : gmap (list string) Node) (k : list string) : bool :=
  match fs_lookup fs k with Some (File _) => true | _ => false end.

Definition is_dir_at (fs : gmap (list string) Node) (k : list string) : bool :=
  match fs_lookup fs k with Some Dir => true | _ => false end.

(** [mkdir(parents=True, exist_ok=True)] walking down from [seen]: missing
    directories are created, existing ones are kept, a regular file in the
    way is an error. *)
Fixpoint mkdir_from (fs : gmap (list string) Node) (seen rest : list string)
  : Exc + gmap (list string) Node :=
  match rest with
  | [] => inr fs
  | c :: rest' =>
      let d := seen ++ [c] in
      match fs !! d with
      | Some Dir => mkdir_from fs d rest'
      | Some (File _) =>
          inl (mkExc (match rest' with
                      | [] => FileExistsError
                      | _ => NotADirectoryError
                      end) "mkdir" None)
      | None => mkdir_from (<[d := Dir]> fs) d rest'
      end
  end.

Definition fs_mkdir_p (fs : gmap (list string) Node) (k : list string)
  : Exc + gmap (list string) Node := mkdir_from fs [] k.

(** Opening [k] for writing: the parent must be a directory and [k] must not
    be one. *)
Definition fs_write (fs : gmap (list string) Node) (k : list string) (b : Bytes)
  : Exc + gmap (list string) Node :=
  match k with
  | [] => inl (mkExc IsADirectoryError "open" None)
  | _ =>
      match fs_lookup fs (removelast k) with
      | Some Dir =>
          match fs !! k with
          | Some Dir => inl (mkExc IsADirectoryError "open" None)
          | _ => inr (<[k := File b]> fs)
          end
      | Some (File _) => inl (mkExc NotADirectoryError "open" None)
      | None => inl (mkExc FileNotFoundError "open" None)
      end
  end.

Definition fs_read (fs : gmap (list string) Node) (k : list string) : Exc + Bytes :=
  match fs_lookup fs k with
  | Some (File b) => inr b
  | Some Dir => inl (mkExc IsADirectoryError "open" None)
  | None => inl (mkExc FileNotFoundError "open" None)
  end.

(** The names directly under directory [k]. *)
Definition child_of (k : list string) (k' : list string) : option string :=
  match last k' with
  | Some c => if decide (k' = k ++ [c]) then Some c else None
  | None => None
  end.

Definition fs_listdir (fs : gmap (list string) Node) (k : list string) : list string :=
  omap (fun kv => child_of k kv.1) (map_to_list fs).

(** ** What the adapter calls *)

(** The methods inherited from [AbstractVersionedDataSet] and the [pathlib]
    and [pandas] calls of the source, as an interface: the adapter is written
    against it and is verified both for every implementation and for the one
    given further down. *)
Class Deps (Frame : Type) := {
  _get_load_path : M Path;
  _get_save_path : M Path;
  _check_paths_consistency : Path -> Path -> M unit;
  Path_absolute : Path -> M Path;
  Path_mkdir : Path -> M unit;   (* mkdir(parents=True, exist_ok=True) *)
  Path_is_file : Path -> M bool;
  read_feather : Path -> Args -> M Frame;
  to_feather : Frame -> Path -> M unit
}.

(** ** The adapter *)

(** A value of the dictionary returned by [_describe]. *)
Inductive Attr :=
| AttrPath (p : Path)
| AttrArgs (a : Args)
| AttrVersion (v : option Version).

(** [{**d, **u}]: the entries of [d], overwritten and extended by those of
    [u]. *)
Definition dict_merge (d u : Args) : Args := u ∪ d.

Definition default_load_args : Args := ∅.

(** [__init__]: [super().__init__(Path(filepath), version)] stores the path
    and the version. *)
Definition __init__ (filepath : string) (load_args : option Args)
    (version : option Version) : FeatherLocalDataSet :=
  {| _filepath := Path_of_string filepath;
     _version := version;
     _load_args := match load_args with
                   | Some load_args => dict_merge default_load_args load_args
                   | None => default_load_args
                   end |}.

Definition get_self : M FeatherLocalDataSet := fun w => (Ok (this w), w).

Section Adapter.
Context {Frame : Type} `{!Deps Frame}.

Definition _load : M Frame :=
  self ← get_self;
  load_path ← _get_load_path;
  read_feather load_path (_load_args self).

Definition _save (data : Frame) : M unit :=
  save_path ← _get_save_path;
  Path_mkdir (Path_parent save_path);;
  to_feather data save_path;;
  load_path ← _get_load_path;
  load_abs ← Path_absolute load_path;
  save_abs ← Path_absolute save_path;
  _check_paths_consistency load_abs save_abs.

Definition _exists : M bool :=
  try_except _get_load_path DataSetError
    (mret false)
    (fun path => Path_is_file path).

Definition _describe : M (gmap string Attr) :=
  self ← get_self;
  mret (<["filepath" := AttrPath (_filepath self)]>
        (<["load_args" := AttrArgs (_load_args self)]>
        (<["version" := AttrVersion (_version self)]> ∅))).
End Adapter.

(** ** The base class, from its specification *)

(** Modelled from the spec: "sorted descending" on version identifiers,
    section 4.1: [str_ge a b] when [b <= a] in the order of [String.leb]. *)
Definition str_ge : relation string := fun a b => String.leb b a = true.

#[global] Instance str_ge_dec : RelDecision str_ge.
Proof. intros a b. unfold str_ge. apply _. Defined.

(** The order in which the entries of a mapping are written out. *)
Definition key_le {A} : relation (string * A) :=
  fun a b => String.leb a.1 b.1 = true.

#[global] Instance key_le_dec {A} : RelDecision (@key_le A).
Proof. intros a b. unfold key_le. apply _. Defined.

(** Python's [repr] of the values that occur in a description. *)
Definition repr_str (s : string) : string := "'" +:+ s +:+ "'".

Definition repr_val (v : PyVal) : string :=
  match v with
  | PyNone => "None"
  | PyBool true => "True"
  | PyBool false => "False"
  | PyInt z => pretty z
  | PyStr s => repr_str s
  | PyStrs l => "[" +:+ String.concat ", " (repr_str <$> l) +:+ "]"
  end.

Definition repr_args (a : Args) : string :=
  "{" +:+ String.concat ", "
            ((fun kv => repr_str kv.1 +:+ ": " +:+ repr_val kv.2)
               <$> merge_sort key_le (map_to_list a)) +:+ "}".

Definition repr_opt (o : option string) : string :=
  match o with None => "None" | Some s => repr_str s end.

Definition repr_version (v : option Version) : string :=
  match v with
  | None => "None"
  | Some v => "Version(load=" +:+ repr_opt (load v) +:+ ", save="
                +:+ repr_opt (save v) +:+ ")"
  end.

Definition repr_attr (a : Attr) : string :=
  match a with
  | AttrPath p => Path_str p
  | AttrArgs a => repr_args a
  | AttrVersion v => repr_version v
  end.

(** Modelled from the spec: the text of a [describe()] mapping inside an error
    message; [AbstractDataSet.__str__] is not among the sources.  The entries
    are written [key=value] in key order. *)
Definition to_str (d : gmap string Attr) : string :=
  String.concat ", "
    ((fun kv => kv.1 +:+ "=" +:+ repr_attr kv.2)
       <$> merge_sort key_le (map_to_list d)).

(** [type(self).__name__]. *)
Definition type_name : string := "FeatherLocalDataSet".

(** Modelled from the spec: [str(self)], the dataset type followed by its
    description in parentheses, as the message pattern of the tests has it. *)
Definition __str__ : M string :=
  d ← _describe;
  mret (type_name +:+ "(" +:+ to_str d +:+ ")").

(** Modelled from the spec: the identifier of a new version, one that grows
    with the clock; [generate_timestamp] is not among the sources. *)
Definition timestamp (n : nat) : string :=
  let digits := pretty n in
  String.concat "" (replicate (20 - String.length digits) "0") +:+ digits.

(** Modelled from the spec: reading the clock for a new identifier; the next
    reading is later. *)
Definition generate_timestamp : M string :=
  w ← get_world;
  modify (set_clock (S (clock w)));;
  mret (timestamp (clock w)).

(** Modelled from the spec: the layout of section 6,
    [<base>/<version>/<name of base>]. *)
Definition versioned_path (base : Path) (v : string) : Path :=
  Path_join base [v; Path_name base].

(** Modelled from the spec: the candidate version directories under [base],
    sorted descending. *)
Definition version_candidates (w : World) (base : Path) : list string :=
  merge_sort str_ge (fs_listdir (nodes w) (abs_parts w base)).

(** Modelled from the spec: version [v] "contains the target filename". *)
Definition has_target (w : World) (base : Path) (v : string) : bool :=
  is_file_at (nodes w) (abs_parts w (versioned_path base v)).

(** Modelled from the spec: [VersionedPathResolver.resolve_load_path], section
    4.1; [AbstractVersionedDataSet._get_load_path] is not among the sources.
    [must_exist] is "the caller requires existence". *)
Definition resolve_load_path (must_exist : bool) : M Path :=
  emit EvGetLoadPath;;
  w ← get_world;
  let self := this w in
  match _version self with
  | None => mret (_filepath self)
  | Some version =>
      match load version with
      | Some v =>
          if must_exist && negb (has_target w (_filepath self) v)
          then s ← __str__;
               raise (mkExc VersionNotFoundError
                        ("Did not find version " +:+ v +:+ " for " +:+ s) None)
          else mret (versioned_path (_filepath self) v)
      | None =>
          match List.find (has_target w (_filepath self))
                          (version_candidates w (_filepath self)) with
          | Some v => mret (versioned_path (_filepath self) v)
          | None =>
              s ← __str__;
              raise (mkExc VersionNotFoundError
                       ("Did not find any versions for " +:+ s) None)
          end
      end
  end.

(** Modelled from the spec: [VersionedPathResolver.resolve_save_path], section
    4.1; [AbstractVersionedDataSet._get_save_path] is not among the sources.
    Under versioning it "creates intermediate directories as needed". *)
Definition resolve_save_path : M Path :=
  emit EvGetSavePath;;
  self ← get_self;
  match _version self with
  | None => mret (_filepath self)
  | Some version =>
      v ← match save version with
          | Some v => mret v
          | None => generate_timestamp
          end;
      let p := versioned_path (_filepath self) v in
      w ← get_world;
      fs ← lift_result (fs_mkdir_p (nodes w) (abs_parts w (Path_parent p)));
      modify (set_nodes fs);;
      mret p
  end.

(** Modelled from the spec: [ConsistencyChecker.check], section 4.2;
    [AbstractVersionedDataSet._check_paths_consistency] is not among the
    sources. *)
Definition check_paths_consistency (load_path save_path : Path) : M unit :=
  emit (EvCheckPaths load_path save_path);;
  if decide (load_path = save_path) then mret tt
  else s ← __str__;
       raise (mkExc InconsistentVersionError
                ("Save path " +:+ Path_str save_path
                   +:+ " did not match load path " +:+ Path_str load_path
                   +:+ " for " +:+ s) None).

(** ** The platform calls *)

Definition os_absolute (p : Path) : M Path :=
  w ← get_world;
  mret (absolute_in (cwd w) p).

Definition os_mkdir (p : Path) : M unit :=
  emit (EvMkdir p);;
  w ← get_world;
  fs ← lift_result (fs_mkdir_p (nodes w) (abs_parts w p));
  modify (set_nodes fs).

Definition os_is_file (p : Path) : M bool :=
  emit (EvIsFile p);;
  w ← get_world;
  mret (is_file_at (nodes w) (abs_parts w p)).

(** The feather format: what [pandas] does to a frame is a parameter. *)
Class Feather (Frame : Type) := {
  feather_encode : Frame -> Exc + Bytes;
  feather_decode : Args -> Bytes -> Exc + Frame;
  frame_equals : Frame -> Frame -> bool
}.

Section Pandas.
Context {Frame : Type} `{!Feather Frame}.

Definition pd_to_feather (data : Frame) (p : Path) : M unit :=
  emit (EvToFeather p);;
  b ← lift_result (feather_encode data);
  w ← get_world;
  fs ← lift_result (fs_write (nodes w) (abs_parts w p) b);
  modify (set_nodes fs).

Definition pd_read_feather (p : Path) (args : Args) : M Frame :=
  emit (EvReadFeather p args);;
  w ← get_world;
  b ← lift_result (fs_read (nodes w) (abs_parts w p));
  lift_result (feather_decode args b).

(** The adapter as it runs: the base class of the specification over the
    file system above.  The adapter's own calls of [_get_load_path] pass no
    requirement of existence. *)
#[global] Instance KedroDeps : Deps Frame := {|
  _get_load_path := resolve_load_path false;
  _get_save_path := resolve_save_path;
  _check_paths_consistency := check_paths_consistency;
  Path_absolute := os_absolute;
  Path_mkdir := os_mkdir;
  Path_is_file := os_is_file;
  read_feather := pd_read_feather;
  to_feather := pd_to_feather
|}.
End Pandas.

Definition newline : string := String "010"%char "".

Section PublicAPI.
Context {Frame : Type} `{!Deps Frame}.

(** Modelled from the spec: [AbstractVersionedDataSet.load], sections 4.3
    and 7, which is not among the sources.  An error that already is a
    [DataSetError] reaches the caller as it is, any other is wrapped with
    the description of the dataset. *)
Definition AbstractDataSet_load : M Frame :=
  try_catch_all _load (fun exc =>
    if isinstance exc DataSetError then raise exc
    else s ← __str__;
         raise (mkExc DataSetError
                  ("Failed while loading data from data set " +:+ s
                     +:+ "." +:+ newline +:+ exc_msg exc) (Some exc))).

(** Modelled from the spec: [AbstractVersionedDataSet.save], sections 4.3
    and 7, which is not among the sources. *)
Definition AbstractDataSet_save (data : Frame) : M unit :=
  try_catch_all (_save data) (fun exc =>
    if isinstance exc DataSetError then raise exc
    else s ← __str__;
         raise (mkExc DataSetError
                  ("Failed while saving data to data set " +:+ s
                     +:+ "." +:+ newline +:+ exc_msg exc) (Some exc))).
End PublicAPI.

(** ** The vocabulary of the statements *)

(** The events a call adds to the log. *)
Definition events (w w' : World) : list Event :=
  drop (length (trace w)) (trace w').

Definition is_check (ev : Event) : bool :=
  match ev with EvCheckPaths _ _ => true | _ => false end.

(** The mapping built by [_describe]. *)
Definition describe_of (self : FeatherLocalDataSet) : gmap string Attr :=
  <["filepath" := AttrPath (_filepath self)]>
  (<["load_args" := AttrArgs (_load_args self)]>
  (<["version" := AttrVersion (_version self)]> ∅)).

Definition str_of (self : FeatherLocalDataSet) : string :=
  type_name +:+ "(" +:+ to_str (describe_of self) +:+ ")".

(** A version has been saved when its directory exists under the base path and
    holds the target file. *)
Definition saved (w : World) (v : string) : Prop :=
  v ∈ fs_listdir (nodes w) (abs_parts w (_filepath (this w))) /\
  has_target w (_filepath (this w)) v = true.

(** No regular file sits at the target: at the path itself without
    versioning, under any version directory with it. *)
Definition never_saved (w : World) : Prop :=
  match _version (this w) with
  | None => is_file_at (nodes w) (abs_parts w (_filepath (this w))) = false
  | Some _ => forall v, has_target w (_filepath (this w)) v = false
  end.

(** A value the format supports under the given read options: what is
    written for it is read back as an equal value. *)
Definition supported {Frame : Type} `{!Feather Frame}
    (args : Args) (data : Frame) : Prop :=
  forall b, feather_encode data = inr b ->
    exists data', feather_decode args b = inr data' /\
                  frame_equals data data' = true.

(** A file can be created at [k]: it has a name, no regular file stands
    where a directory is needed, and [k] is not itself a directory. *)
Definition can_create (fs : gmap (list string) Node) (k : list string) : Prop :=
  k <> [] /\
  (forall k', k' `prefix_of` removelast k -> is_file_at fs k' = false) /\
  is_dir_at fs k = false.

(** The path [_get_save_path] returns. *)
Definition save_target (w : World) : Path :=
  match _version (this w) with
  | None => _filepath (this w)
  | Some version =>
      versioned_path (_filepath (this w))
        (default (timestamp (clock w)) (save version))
  end.

(** A computation that leaves the instance and the working directory as they
    are and only appends to the log. *)
Definition well_behaved {A} (c : M A) : Prop :=
  forall w, this (c w).2 = this w /\ cwd (c w).2 = cwd w /\
            exists evs, trace (c w).2 = trace w ++ evs.

(** A computation whose first logged call is [ev]. *)
Definition starts_with {A} (ev : Event) (c : M A) : Prop :=
  forall w, exists rest, trace (c w).2 = trace w ++ ev :: rest.

(** The content of the regular file at [k], if there is one. *)
Definition file_at (fs : gmap (list string) Node) (k : list string) : option Bytes :=
  match fs !! k with
  | Some (File b) => Some b
  | _ => None
  end.

(** Two worlds with the same working directory and the same regular files,
    but for the file at [t]. *)
Definition same_files_but (t : list string) (w w' : World) : Prop :=
  cwd w' = cwd w /\ this w' = this w /\
  forall k, k <> t -> file_at (nodes w') k = file_at (nodes w) k.

(** What [read_feather] returns for the bytes of a file. *)
Definition decoded {Frame : Type} `{!Feather Frame}
    (args : Args) (b : Bytes) : Result Frame :=
  match feather_decode args b with
  | inl e => Raised e
  | inr data => Ok data
  end.

(** ** Worlds to run the adapter in *)

#[global] Instance byte_eq_dec : EqDecision Byte.byte := Byte.byte_eq_dec.

(** A format for the runs below: a frame is its own encoding. *)
#[global] Instance raw_format : Feather Bytes := {|
  feather_encode := fun data => inr data;
  feather_decode := fun _ b => inr b;
  frame_equals := fun a b => bool_decide (a = b)
|}.

Definition fresh_world (self : FeatherLocalDataSet) : World :=
  mkWorld self ["home"; "kedro"] ∅ 0 [].

Definition frame1 : Bytes := [Byte.x01; Byte.x02; Byte.x03].
Definition frame2 : Bytes := [Byte.x04].
Definition frame3 : Bytes := [Byte.x05; Byte.x06].

(** [FeatherLocalDataSet(filepath="data/out/test.feather")]. *)
Definition plain : FeatherLocalDataSet :=
  __init__ "data/out/test.feather" None None.

(** The same file, versioned, with nothing pinned. *)
Definition versioned : FeatherLocalDataSet :=
  __init__ "data/out/test.feather" None (Some (mkVersion None None)).

Definition saving_as (v : string) : FeatherLocalDataSet :=
  __init__ "data/out/test.feather" None (Some (mkVersion None (Some v))).

Definition with_self (self : FeatherLocalDataSet) (w : World) : World :=
  mkWorld self (cwd w) (nodes w) (clock w) (trace w).

(** Three saves, as versions [v1], [v2] and [v3], seen from a dataset with an
    unset load identifier. *)
Definition three_versions : World :=
  let w1 := (_save frame1 (fresh_world (saving_as "v1"))).2 in
  let w2 := (_save frame2 (with_self (saving_as "v2") w1)).2 in
  let w3 := (_save frame3 (with_self (saving_as "v3") w2)).2 in
  with_self versioned w3.

(** The steps of one save of [plain]. *)
Definition run_sp : Path := _filepath plain.
Definition run_wa : World := (_get_save_path (fresh_world plain)).2.
Definition run_wb : World := (Path_mkdir (Path_parent run_sp) run_wa).2.
Definition run_w1 : World := (to_feather frame1 run_sp run_wb).2.

(** A base class and a platform that fail on demand: path resolution and
    [is_file] are given, every other call raises [exc]. *)
Definition failing_deps (exc : Exc) (resolution : M Path)
    (is_file : Path -> M bool) : Deps unit := {|
  _get_load_path := resolution;
  _get_save_path := raise exc;
  _check_paths_consistency := fun _ _ => raise exc;
  Path_absolute := fun _ => raise exc;
  Path_mkdir := fun _ => raise exc;
  Path_is_file := is_file;
  read_feather := fun _ _ => raise exc;
  to_feather := fun _ _ => raise exc
|}.

Definition permission_denied : Exc := mkExc PermissionError "Permission denied" None.
Definition no_version : Exc := mkExc VersionNotFoundError "no version" None.

(** A format that refuses the empty frame and is [raw_format] otherwise. *)
Definition refused : Exc := mkExc (LibraryError "ValueError") "empty frame" None.

Definition picky_format : Feather Bytes := {|
  feather_encode := fun data =>
    match data with [] => inl refused | _ => inr data end;
  feather_decode := fun _ b => inr b;
  frame_equals := fun a b => bool_decide (a = b)
|}.

(** A dataset whose load and save identifiers are pinned apart. *)
Definition diverging : FeatherLocalDataSet :=
  __init__ "data/out/test.feather" None
    (Some (mkVersion (Some "v1") (Some "v2"))).

(** * Verification *)

(** ** Running computations *)

Lemma bind_ok {A B} (c : M A) (f : A -> M B) w a w' :
  c w = (Ok a, w') -> (c ≫= f) w = f a w'.
Proof. intros Hc. unfold mbind, M_bind. by rewrite Hc. Qed.

Lemma bind_inv_ok {A B} (c : M A) (f : A -> M B) w b w2 :
  (c ≫= f) w = (Ok b, w2) ->
  exists a w1, c w = (Ok a, w1) /\ f a w1 = (Ok b, w2).
Proof.
  unfold mbind, M_bind. destruct (c w) as [[a|e] w1]; [eauto | discriminate].
Qed.

(** The primitive steps, unfolded. *)
Ltac step :=
  cbv beta iota delta
    [mbind M_bind mret M_ret raise get_world get_self modify emit lift_result].

Lemma events_app w w' evs : trace w' = trace w ++ evs -> events w w' = evs.
Proof. unfold events. intros ->. by rewrite drop_app_length. Qed.

(** ** [_describe] and [__str__] touch nothing *)

Lemma _describe_run w : _describe w = (Ok (describe_of (this w)), w).
Proof. reflexivity. Qed.

Lemma __str___run w : __str__ w = (Ok (str_of (this w)), w).
Proof. reflexivity. Qed.

(** C7: [_describe] returns the mapping of [filepath], [load_args] and
    [version] to the three stored attributes and nothing else; the world,
    with its file system and its log of calls, is the same afterwards, and a
    second call returns the same mapping. *)
Theorem describe_is_static_and_idempotent (w : World) :
  exists d,
    _describe w = (Ok d, w) /\
    (forall w1 d1, _describe w = (Ok d1, w1) ->
       _describe w1 = (Ok d1, w1) /\ w1 = w /\ events w w1 = []) /\
    d !! "filepath" = Some (AttrPath (_filepath (this w))) /\
    d !! "load_args" = Some (AttrArgs (_load_args (this w))) /\
    d !! "version" = Some (AttrVersion (_version (this w))) /\
    dom d = ({["filepath"; "load_args"; "version"]} : gset string).
Proof.
  exists (describe_of (this w)). split; [apply _describe_run|].
  split.
  - intros w1 d1. rewrite _describe_run. intros [= <- <-].
    split; [apply _describe_run|]. split; [done|].
    apply events_app. by rewrite app_nil_r.
  - unfold describe_of. split_and!.
    + by rewrite lookup_insert_eq.
    + rewrite lookup_insert_ne by done. by rewrite lookup_insert_eq.
    + rewrite !lookup_insert_ne by done. by rewrite lookup_insert_eq.
    + rewrite !dom_insert_L, dom_empty_L. set_solver.
Qed.

(** ** Options *)

Lemma dict_merge_lookup (d u : Args) (k : string) :
  dict_merge d u !! k = match u !! k with Some x => Some x | None => d !! k end.
Proof.
  unfold dict_merge. rewrite lookup_union.
  destruct (u !! k), (d !! k); reflexivity.
Qed.

(** C4: the options stored by [__init__] are the defaults overwritten, key by
    key, by the caller's ([dict_merge] read at the defaults of this adapter);
    without caller's options they are the defaults; and [_load] hands exactly
    the stored options to the reader, whatever the base class and the reader
    do. *)
Theorem load_args_are_defaults_merged_with_user
    {Frame : Type} `{!Deps Frame}
    (filepath : string) (user : Args) (version : option Version)
    (wd : list string) (fs : gmap (list string) Node) (n : nat)
    (tr : list Event) :
  let self := __init__ filepath (Some user) version in
  let w := mkWorld self wd fs n tr in
  _load_args self = dict_merge default_load_args user /\
  (forall k, _load_args self !! k =
             match user !! k with
             | Some x => Some x
             | None => default_load_args !! k
             end) /\
  (forall d u k, dict_merge d u !! k =
                 match u !! k with Some x => Some x | None => d !! k end) /\
  _load_args (__init__ filepath None version) = default_load_args /\
  _load w = (load_path ← _get_load_path;
             read_feather load_path (dict_merge default_load_args user)) w.
Proof.
  simpl. split; [reflexivity|]. split; [intros k; apply dict_merge_lookup|].
  split; [apply dict_merge_lookup|]. split; reflexivity.
Qed.

(** ** [_exists] against any base class *)

(** C10: against every implementation of the base class and of [is_file]:
    when path resolution raises an instance of [DataSetError], [_exists]
    answers [False]; when it raises anything else, [_exists] raises the same
    exception; when it returns a path, the outcome of [_exists], exception
    included, is that of [is_file] on that path. *)
Theorem exists_downgrades_only_DataSetError
    {Frame : Type} `{!Deps Frame} (w : World) :
  match _get_load_path w with
  | (Raised e, w1) =>
      if isinstance e DataSetError
      then _exists w = (Ok false, w1)
      else _exists w = (Raised e, w1)
  | (Ok path, w1) => _exists w = Path_is_file path w1
  end.
Proof.
  unfold _exists, try_except.
  destruct (_get_load_path w) as [[path|e] w1]; [reflexivity|].
  destruct (isinstance e DataSetError); reflexivity.
Qed.

(** ** Strings in descending order *)

Lemma leb_refl (a : string) : String.leb a a = true.
Proof. destruct (String.leb_total a a); assumption. Qed.

Lemma leb_trans (a b c : string) :
  String.leb a b = true -> String.leb b c = true -> String.leb a c = true.
Proof.
  unfold String.leb. intros Hab Hbc.
  destruct (String.compare a b) eqn:Eab; try discriminate;
    destruct (String.compare b c) eqn:Ebc; try discriminate.
  - apply String.compare_eq_iff in Eab, Ebc. subst. exact (leb_refl c).
  - apply String.compare_eq_iff in Eab. subst. by rewrite Ebc.
  - apply String.compare_eq_iff in Ebc. subst. by rewrite Eab.
  - apply OrderedTypeEx.String_as_OT.cmp_lt in Eab, Ebc.
    pose proof (OrderedTypeEx.String_as_OT.lt_trans _ _ _ Eab Ebc) as Hac.
    apply OrderedTypeEx.String_as_OT.cmp_lt in Hac.
    unfold OrderedTypeEx.String_as_OT.cmp in Hac. by rewrite Hac.
Qed.

#[global] Instance str_ge_trans : Transitive str_ge.
Proof. intros a b c Hab Hbc. unfold str_ge in *. eauto using leb_trans. Qed.

#[global] Instance str_ge_total : Total str_ge.
Proof. intros a b. unfold str_ge. destruct (String.leb_total a b); auto. Qed.

(** The first hit in a descending list is the greatest hit. *)
Lemma find_sorted_greatest (P : string -> bool) (l : list string) (v : string) :
  StronglySorted str_ge l ->
  List.find P l = Some v ->
  v ∈ l /\ P v = true /\ forall v', v' ∈ l -> P v' = true -> String.leb v' v = true.
Proof.
  induction 1 as [|x l Hs IH Hall]; simpl; [discriminate|].
  destruct (P x) eqn:HPx.
  - intros [= ->]. split; [left|]. split; [done|].
    intros v' Hin _. apply elem_of_cons in Hin as [->|Hin]; [apply leb_refl|].
    rewrite Forall_forall in Hall. by apply Hall.
  - intros Hfind. destruct (IH Hfind) as (Hin & HP & Hmax).
    split; [by right|]. split; [done|].
    intros v' Hin' HP'. apply elem_of_cons in Hin' as [->|Hin']; [congruence|].
    by apply Hmax.
Qed.

Lemma find_none (P : string -> bool) (l : list string) :
  List.find P l = None -> forall v, v ∈ l -> P v = false.
Proof.
  intros Hfind v Hin. apply list_elem_of_In in Hin.
  exact (List.find_none P l Hfind v Hin).
Qed.

Lemma find_some_of_hit (P : string -> bool) (l : list string) (v : string) :
  v ∈ l -> P v = true -> is_Some (List.find P l).
Proof.
  intros Hin HP. destruct (List.find P l) eqn:Hfind; [eauto|].
  pose proof (find_none P l Hfind v Hin). congruence.
Qed.

(** ** Paths and directories *)

Lemma abs_parts_join w (p : Path) (names : list string) :
  abs_parts w (Path_join p names) = abs_parts w p ++ names.
Proof.
  unfold abs_parts, absolute_in, Path_join. simpl.
  destruct (anchored p); simpl; [done|]. by rewrite app_assoc.
Qed.

Lemma abs_parts_versioned w (base : Path) (v : string) :
  abs_parts w (versioned_path base v) = abs_parts w base ++ [v; Path_name base].
Proof. apply abs_parts_join. Qed.

Lemma removelast_snoc {A} (l : list A) (x : A) : removelast (l ++ [x]) = l.
Proof. apply removelast_last. Qed.

Lemma abs_parts_parent_versioned w (base : Path) (v : string) :
  abs_parts w (Path_parent (versioned_path base v)) = abs_parts w base ++ [v].
Proof.
  replace (Path_parent (versioned_path base v)) with (Path_join base [v]).
  - apply abs_parts_join.
  - unfold Path_parent, versioned_path, Path_join. simpl. f_equal.
    change [v; Path_name base] with ([v] ++ [Path_name base]).
    by rewrite app_assoc, removelast_snoc.
Qed.

Lemma child_of_spec (k k' : list string) (c : string) :
  child_of k k' = Some c <-> k' = k ++ [c].
Proof.
  unfold child_of. split.
  - destruct (last k') as [c'|]; [|discriminate].
    case_decide; [|discriminate]. by intros [= ->].
  - intros ->. rewrite last_snoc. by rewrite decide_True.
Qed.

Lemma elem_of_fs_listdir (fs : gmap (list string) Node) (k : list string) (c : string) :
  c ∈ fs_listdir fs k <-> is_Some (fs !! (k ++ [c])).
Proof.
  unfold fs_listdir. rewrite list_elem_of_omap. split.
  - intros ([k' n] & Hin & Hc). simpl in Hc. apply child_of_spec in Hc as ->.
    apply elem_of_map_to_list in Hin. eauto.
  - intros [n Hn]. exists (k ++ [c], n). split.
    + by apply elem_of_map_to_list.
    + simpl. by apply child_of_spec.
Qed.

Lemma version_candidates_sorted w base :
  StronglySorted str_ge (version_candidates w base).
Proof. apply StronglySorted_merge_sort; apply _. Qed.

Lemma elem_of_version_candidates w base v :
  v ∈ version_candidates w base <-> v ∈ fs_listdir (nodes w) (abs_parts w base).
Proof. unfold version_candidates. by rewrite merge_sort_Permutation. Qed.

(** ** Path resolution, case by case *)

Lemma resolve_load_unversioned must_exist w :
  _version (this w) = None ->
  resolve_load_path must_exist w = (Ok (_filepath (this w)), log EvGetLoadPath w).
Proof.
  intros Hv. unfold resolve_load_path. step. simpl. by rewrite Hv.
Qed.

Lemma resolve_load_pinned w version v :
  _version (this w) = Some version -> load version = Some v ->
  resolve_load_path false w
  = (Ok (versioned_path (_filepath (this w)) v), log EvGetLoadPath w).
Proof.
  intros Hv Hl. unfold resolve_load_path. step. simpl. by rewrite Hv, Hl.
Qed.

Lemma resolve_load_latest must_exist w version :
  _version (this w) = Some version -> load version = None ->
  resolve_load_path must_exist w
  = (match List.find (has_target w (_filepath (this w)))
                     (version_candidates w (_filepath (this w))) with
     | Some v => Ok (versioned_path (_filepath (this w)) v)
     | None => Raised (mkExc VersionNotFoundError
                         ("Did not find any versions for " +:+ str_of (this w))
                         None)
     end, log EvGetLoadPath w).
Proof.
  intros Hv Hl. unfold resolve_load_path. step. simpl. rewrite Hv, Hl.
  change (has_target (log EvGetLoadPath w)) with (has_target w).
  change (version_candidates (log EvGetLoadPath w))
    with (version_candidates w).
  by destruct (List.find _ _).
Qed.

Lemma fs_lookup_versioned (fs : gmap (list string) Node) w base v :
  fs_lookup fs (abs_parts w (versioned_path base v))
  = fs !! abs_parts w (versioned_path base v).
Proof.
  rewrite abs_parts_versioned. unfold fs_lookup.
  destruct (abs_parts w base ++ [v; Path_name base]) eqn:E; [|done].
  by apply app_eq_nil in E as [_ ?].
Qed.

Lemma has_target_file w base v :
  has_target w base v = true ->
  exists b, nodes w !! abs_parts w (versioned_path base v) = Some (File b).
Proof.
  unfold has_target, is_file_at. rewrite fs_lookup_versioned.
  destruct (nodes w !! _) as [[|b]|]; try discriminate. eauto.
Qed.

(** Reading a file that is there. *)
Lemma pd_read_feather_file {Frame : Type} `{!Feather Frame}
    (p : Path) (args : Args) (w : World) (b : Bytes) :
  fs_lookup (nodes w) (abs_parts w p) = Some (File b) ->
  pd_read_feather p args w
  = (match feather_decode args b with inl e => Raised e | inr v => Ok v end,
     log (EvReadFeather p args) w).
Proof.
  intros Hb. unfold pd_read_feather. step. simpl.
  unfold fs_read.
  change (abs_parts (log (EvReadFeather p args) w) p) with (abs_parts w p).
  rewrite Hb. by destruct (feather_decode args b).
Qed.

(** What resolution of an unset load identifier returns. *)
Lemma resolve_load_latest_spec (must_exist : bool) (w : World) (version : Version) :
  _version (this w) = Some version -> load version = None ->
  match resolve_load_path must_exist w with
  | (Ok p, w1) =>
      exists v,
        p = versioned_path (_filepath (this w)) v /\
        saved w v /\
        (forall v', saved w v' -> String.leb v' v = true)
  | (Raised e, w1) =>
      exc_class e = VersionNotFoundError /\ forall v, ~ saved w v
  end.
Proof.
  intros Hv Hl. rewrite (resolve_load_latest must_exist w version Hv Hl).
  destruct (List.find _ _) as [v|] eqn:Hfind.
  - destruct (find_sorted_greatest _ _ _ (version_candidates_sorted _ _) Hfind)
      as (Hin & Htarget & Hmax).
    apply elem_of_version_candidates in Hin.
    exists v. split; [done|]. split; [done|].
    intros v' [Hin' Ht']. apply Hmax; [|done].
    by apply elem_of_version_candidates.
  - split; [done|]. intros v [Hin Ht].
    apply elem_of_version_candidates in Hin.
    pose proof (find_none _ _ Hfind v Hin). congruence.
Qed.

(** C8: for a versioned dataset whose load identifier is unset, resolution
    either returns the path of a saved version that is lexically the greatest
    of all saved versions, and then [_load] decodes the file of that version,
    or raises [VersionNotFoundError], and then no version has been saved. *)
Theorem unset_load_resolves_to_latest_version
    {Frame : Type} `{!Feather Frame}
    (must_exist : bool) (w : World) (version : Version) :
  _version (this w) = Some version -> load version = None ->
  match resolve_load_path must_exist w with
  | (Ok p, w1) =>
      exists v b,
        p = versioned_path (_filepath (this w)) v /\
        saved w v /\
        (forall v', saved w v' -> String.leb v' v = true) /\
        nodes w !! abs_parts w p = Some (File b) /\
        exists w2,
          _load w = (match feather_decode (_load_args (this w)) b with
                     | inl e => Raised e
                     | inr data => Ok data
                     end, w2)
  | (Raised e, w1) =>
      exc_class e = VersionNotFoundError /\ forall v, ~ saved w v
  end.
Proof.
  intros Hv Hl.
  assert (Hload : forall p w1,
            resolve_load_path false w = (Ok p, w1) ->
            forall b, fs_lookup (nodes w) (abs_parts w p) = Some (File b) ->
            exists w2,
              _load w = (match feather_decode (_load_args (this w)) b with
                         | inl e => Raised e
                         | inr data => Ok data
                         end, w2)).
  { intros p w1 Hres b Hb. unfold _load. step.
    change (_get_load_path w) with (resolve_load_path false w). rewrite Hres.
    pose proof (resolve_load_latest false w version Hv Hl) as Heq.
    rewrite Hres in Heq. apply (f_equal snd) in Heq. simpl in Heq. subst w1.
    simpl. erewrite pd_read_feather_file; [eauto|].
    exact Hb. }
  pose proof (resolve_load_latest_spec must_exist w version Hv Hl) as Hspec.
  rewrite (resolve_load_latest must_exist w version Hv Hl) in Hspec |- *.
  rewrite (resolve_load_latest false w version Hv Hl) in Hload.
  destruct (List.find _ _) as [v0|] eqn:Hfind; [|done].
  destruct Hspec as (v & Hp & Hsaved & Hmax). rewrite Hp in Hload |- *.
  destruct (has_target_file _ _ _ (proj2 Hsaved)) as [b Hb].
  exists v, b. split_and!; try done.
  eapply Hload; [done|]. by rewrite fs_lookup_versioned.
Qed.

Lemma append_assoc (a b c : string) : (a +:+ b) +:+ c = a +:+ (b +:+ c).
Proof.
  induction a as [|x a IH]; [done|].
  change (String x ((a +:+ b) +:+ c) = String x (a +:+ (b +:+ c))).
  by rewrite IH.
Qed.

Lemma append_nil_r (a : string) : a +:+ "" = a.
Proof.
  induction a as [|x a IH]; [done|].
  change (String x (a +:+ "") = String x a). by rewrite IH.
Qed.

(** ** Datasets that were never saved *)

Lemma resolve_load_world must_exist w :
  (resolve_load_path must_exist w).2 = log EvGetLoadPath w.
Proof.
  unfold resolve_load_path. step. simpl.
  destruct (_version (this w)) as [version|]; [|done].
  destruct (load version) as [v|].
  - by destruct (must_exist && _).
  - by destruct (List.find _ _).
Qed.

Lemma resolve_load_raises must_exist w e w1 :
  resolve_load_path must_exist w = (Raised e, w1) ->
  exc_class e = VersionNotFoundError /\
  exists pre, exc_msg e = pre +:+ str_of (this w).
Proof.
  unfold resolve_load_path. step. simpl.
  destruct (_version (this w)) as [version|]; [|discriminate].
  destruct (load version) as [v|].
  - destruct (must_exist && _); [|discriminate].
    intros [= <- _]. simpl. split; [done|].
    exists ("Did not find version " +:+ v +:+ " for ").
    by rewrite !append_assoc.
  - destruct (List.find _ _); [discriminate|].
    intros [= <- _]. simpl. split; [done|]. by eexists.
Qed.

Lemma os_is_file_run (p : Path) (w : World) :
  os_is_file p w = (Ok (is_file_at (nodes w) (abs_parts w p)), log (EvIsFile p) w).
Proof. reflexivity. Qed.

(** [_exists] over the base class of the specification. *)
Lemma _exists_run {Frame : Type} `{!Feather Frame} (w : World) :
  _exists w =
  match resolve_load_path false w with
  | (Ok p, w1) => (Ok (is_file_at (nodes w) (abs_parts w p)), log (EvIsFile p) w1)
  | (Raised e, w1) => (Ok false, w1)
  end.
Proof.
  unfold _exists, try_except.
  change (_get_load_path w) with (resolve_load_path false w).
  pose proof (resolve_load_world false w) as Hw.
  destruct (resolve_load_path false w) as [[p|e] w1] eqn:Hres; simpl in Hw.
  - subst w1. reflexivity.
  - apply resolve_load_raises in Hres as [Hc _].
    unfold isinstance. by rewrite Hc.
Qed.

(** C2: over the base class of the specification [_exists] never raises;
    when path resolution fails, which it does only with
    [VersionNotFoundError] and only when no version has been saved, the answer
    is [False]; when it yields a path, the answer is whether a regular file is
    at that path; and for a dataset that was never saved the answer is
    [False]. *)
Theorem exists_is_false_on_absence
    {Frame : Type} `{!Feather Frame} (w : World) :
  (exists answer w', _exists w = (Ok answer, w')) /\
  match _get_load_path w with
  | (Raised e, w1) =>
      _exists w = (Ok false, w1) /\
      exc_class e = VersionNotFoundError /\
      forall v, ~ saved w v
  | (Ok p, w1) =>
      exists w2, _exists w = (Ok (is_file_at (nodes w) (abs_parts w p)), w2)
  end /\
  (never_saved w -> exists w', _exists w = (Ok false, w')).
Proof.
  rewrite _exists_run.
  change (_get_load_path w) with (resolve_load_path false w).
  destruct (resolve_load_path false w) as [[p|e] w1] eqn:Hres.
  - split; [eauto|]. split; [eauto|].
    intros Hnever. eexists. f_equal. f_equal.
    unfold never_saved in Hnever.
    destruct (_version (this w)) as [version|] eqn:Hv.
    + destruct (load version) as [v|] eqn:Hl.
      * rewrite (resolve_load_pinned w version v Hv Hl) in Hres.
        injection Hres as <- _. apply Hnever.
      * pose proof (resolve_load_latest_spec false w version Hv Hl) as Hlatest.
        rewrite Hres in Hlatest.
        destruct Hlatest as (v & -> & [_ Ht] & _). by rewrite Hnever in Ht.
    + rewrite (resolve_load_unversioned false w Hv) in Hres.
      by injection Hres as <- _.
  - split; [eauto|]. split; [|eauto].
    split; [done|]. split; [by apply resolve_load_raises in Hres as [? _]|].
    destruct (_version (this w)) as [version|] eqn:Hv.
    + destruct (load version) as [v|] eqn:Hl.
      * by rewrite (resolve_load_pinned w version v Hv Hl) in Hres.
      * pose proof (resolve_load_latest_spec false w version Hv Hl) as Hlatest.
        rewrite Hres in Hlatest. apply Hlatest.
    + by rewrite (resolve_load_unversioned false w Hv) in Hres.
Qed.

(** Reading where no regular file is raises one of the [OSError]s. *)
Lemma pd_read_feather_missing {Frame : Type} `{!Feather Frame}
    (p : Path) (args : Args) (w : World) :
  is_file_at (nodes w) (abs_parts w p) = false ->
  exists e,
    pd_read_feather p args w = (Raised e, log (EvReadFeather p args) w) /\
    isinstance e DataSetError = false /\ isinstance e OSError = true.
Proof.
  unfold is_file_at. intros Hno. unfold pd_read_feather. step. simpl.
  unfold fs_read.
  change (abs_parts (log (EvReadFeather p args) w) p) with (abs_parts w p).
  destruct (fs_lookup (nodes w) (abs_parts w p)) as [[|b]|];
    [| discriminate |]; eexists; split; try reflexivity; done.
Qed.

(** The wrapper of [load] on an error raised by [_load]. *)
Lemma AbstractDataSet_load_raised {Frame : Type} `{!Deps Frame} w e w1 :
  _load w = (Raised e, w1) ->
  AbstractDataSet_load w
  = (Raised (if isinstance e DataSetError then e
             else mkExc DataSetError
                    ("Failed while loading data from data set "
                       +:+ str_of (this w1) +:+ "." +:+ newline +:+ exc_msg e)
                    (Some e)), w1).
Proof.
  intros Hl. unfold AbstractDataSet_load, try_catch_all. rewrite Hl.
  destruct (isinstance e DataSetError); reflexivity.
Qed.

(** C6: loading a dataset that was never saved raises an instance of
    [DataSetError], and the message contains [str(self)]: the name of the
    dataset type followed, in parentheses, by the text of what [_describe]
    returns. *)
Theorem load_of_missing_dataset_fails
    {Frame : Type} `{!Feather Frame} (w : World) :
  never_saved w ->
  exists e w' d pre post,
    AbstractDataSet_load w = (Raised e, w') /\
    isinstance e DataSetError = true /\
    _describe w = (Ok d, w) /\
    exc_msg e = pre +:+ (type_name +:+ "(" +:+ to_str d +:+ ")") +:+ post.
Proof.
  intros Hnever.
  assert (Hmissing : forall p,
            resolve_load_path false w = (Ok p, log EvGetLoadPath w) ->
            is_file_at (nodes w) (abs_parts w p) = false ->
            exists e,
              _load w = (Raised e, log (EvReadFeather p (_load_args (this w)))
                                       (log EvGetLoadPath w)) /\
              isinstance e DataSetError = false).
  { intros p Hres Hno. unfold _load. step.
    change (_get_load_path w) with (resolve_load_path false w). rewrite Hres.
    simpl.
    destruct (pd_read_feather_missing p (_load_args (this w))
                (log EvGetLoadPath w) Hno) as (e & -> & Hne & _).
    eauto. }
  assert (Hwrapped : forall p,
            resolve_load_path false w = (Ok p, log EvGetLoadPath w) ->
            is_file_at (nodes w) (abs_parts w p) = false ->
            exists e w' d pre post,
              AbstractDataSet_load w = (Raised e, w') /\
              isinstance e DataSetError = true /\
              _describe w = (Ok d, w) /\
              exc_msg e = pre +:+ (type_name +:+ "(" +:+ to_str d +:+ ")")
                              +:+ post).
  { intros p Hres Hno. destruct (Hmissing p Hres Hno) as (e & Hl & Hne).
    rewrite (AbstractDataSet_load_raised _ _ _ Hl), Hne.
    do 5 eexists. split; [reflexivity|]. split; [reflexivity|].
    split; [apply _describe_run|]. reflexivity. }
  unfold never_saved in Hnever.
  destruct (_version (this w)) as [version|] eqn:Hv.
  - destruct (load version) as [v|] eqn:Hl.
    + apply (Hwrapped _ (resolve_load_pinned w version v Hv Hl)), Hnever.
    + pose proof (resolve_load_latest_spec false w version Hv Hl) as Hlatest.
      destruct (resolve_load_path false w) as [[p|e] w1] eqn:Hres.
      * destruct Hlatest as (v & -> & [_ Ht] & _). by rewrite Hnever in Ht.
      * destruct (resolve_load_raises _ _ _ _ Hres) as [Hc [pre Hmsg]].
        assert (Hload : _load w = (Raised e, w1)).
        { unfold _load. step.
          change (_get_load_path w) with (resolve_load_path false w).
          by rewrite Hres. }
        rewrite (AbstractDataSet_load_raised _ _ _ Hload).
        unfold isinstance at 1. rewrite Hc. simpl.
        exists e, w1, (describe_of (this w)), pre, "".
        split; [done|]. split; [unfold isinstance; by rewrite Hc|].
        split; [apply _describe_run|].
        rewrite Hmsg. unfold str_of. by rewrite append_nil_r.
  - apply (Hwrapped _ (resolve_load_unversioned false w Hv)), Hnever.
Qed.

(** ** The steps of [_save] *)

(** Logging touches the log only, writing touches the nodes only. *)
Lemma this_log ev w : this (log ev w) = this w. Proof. reflexivity. Qed.
Lemma cwd_log ev w : cwd (log ev w) = cwd w. Proof. reflexivity. Qed.
Lemma nodes_log ev w : nodes (log ev w) = nodes w. Proof. reflexivity. Qed.
Lemma clock_log ev w : clock (log ev w) = clock w. Proof. reflexivity. Qed.
Lemma trace_log ev w : trace (log ev w) = trace w ++ [ev]. Proof. reflexivity. Qed.
Lemma this_set_nodes fs w : this (set_nodes fs w) = this w. Proof. reflexivity. Qed.
Lemma cwd_set_nodes fs w : cwd (set_nodes fs w) = cwd w. Proof. reflexivity. Qed.
Lemma nodes_set_nodes fs w : nodes (set_nodes fs w) = fs. Proof. reflexivity. Qed.
Lemma trace_set_nodes fs w : trace (set_nodes fs w) = trace w. Proof. reflexivity. Qed.
Lemma this_set_clock n w : this (set_clock n w) = this w. Proof. reflexivity. Qed.
Lemma cwd_set_clock n w : cwd (set_clock n w) = cwd w. Proof. reflexivity. Qed.
Lemma nodes_set_clock n w : nodes (set_clock n w) = nodes w. Proof. reflexivity. Qed.
Lemma trace_set_clock n w : trace (set_clock n w) = trace w. Proof. reflexivity. Qed.
Lemma abs_parts_log ev w p : abs_parts (log ev w) p = abs_parts w p.
Proof. reflexivity. Qed.
Lemma abs_parts_set_nodes fs w p : abs_parts (set_nodes fs w) p = abs_parts w p.
Proof. reflexivity. Qed.
Lemma abs_parts_set_clock n w p : abs_parts (set_clock n w) p = abs_parts w p.
Proof. reflexivity. Qed.

Create Rewrite HintDb world.

#[global] Hint Rewrite this_log cwd_log nodes_log clock_log trace_log
  this_set_nodes cwd_set_nodes nodes_set_nodes trace_set_nodes
  this_set_clock cwd_set_clock nodes_set_clock trace_set_clock
  abs_parts_log abs_parts_set_nodes abs_parts_set_clock : world.

Lemma fs_write_inv (fs fs' : gmap (list string) Node) (k : list string) (b : Bytes) :
  fs_write fs k b = inr fs' ->
  fs' = <[k := File b]> fs /\ k <> [] /\
  fs_lookup fs (removelast k) = Some Dir.
Proof.
  unfold fs_write. destruct k as [|c k]; [discriminate|].
  destruct (fs_lookup fs (removelast (c :: k))) as [[|?]|]; try discriminate.
  destruct (fs !! (c :: k)) as [[|?]|]; try discriminate;
    intros [= <-]; done.
Qed.

Lemma resolve_save_path_inv (w wa : World) (sp : Path) :
  resolve_save_path w = (Ok sp, wa) ->
  this wa = this w /\ cwd wa = cwd w /\
  trace wa = trace w ++ [EvGetSavePath] /\
  match _version (this w) with
  | None => sp = _filepath (this w) /\ nodes wa = nodes w
  | Some version =>
      exists v fs,
        sp = versioned_path (_filepath (this w)) v /\
        v = default (timestamp (clock w)) (save version) /\
        fs_mkdir_p (nodes w) (abs_parts w (Path_parent sp)) = inr fs /\
        nodes wa = fs
  end.
Proof.
  unfold resolve_save_path. step. simpl.
  destruct (_version (this w)) as [version|].
  - destruct (save version) as [v|]; simpl.
    + match goal with
      | |- context [fs_mkdir_p ?f ?k] => destruct (fs_mkdir_p f k) as [e|fs] eqn:Hmk
      end; [discriminate|].
      intros [= <- <-]. simpl. split_and!; try done. by exists v, fs.
    + match goal with
      | |- context [fs_mkdir_p ?f ?k] => destruct (fs_mkdir_p f k) as [e|fs] eqn:Hmk
      end; [discriminate|].
      intros [= <- <-]. simpl. split_and!; try done.
      by exists (timestamp (clock w)), fs.
  - intros [= <- <-]. by simpl.
Qed.

Lemma os_mkdir_inv (p : Path) (w wb : World) :
  os_mkdir p w = (Ok tt, wb) ->
  exists fs,
    fs_mkdir_p (nodes w) (abs_parts w p) = inr fs /\
    wb = set_nodes fs (log (EvMkdir p) w).
Proof.
  unfold os_mkdir. step. simpl.
  change (abs_parts (log (EvMkdir p) w) p) with (abs_parts w p).
  destruct (fs_mkdir_p (nodes w) (abs_parts w p)) as [e|fs] eqn:Hmk;
    [discriminate|].
  intros [= <-]. eauto.
Qed.

Lemma pd_to_feather_inv {Frame : Type} `{!Feather Frame}
    (data : Frame) (p : Path) (w w1 : World) :
  pd_to_feather data p w = (Ok tt, w1) ->
  exists b fs,
    feather_encode data = inr b /\
    fs_write (nodes w) (abs_parts w p) b = inr fs /\
    w1 = set_nodes fs (log (EvToFeather p) w).
Proof.
  unfold pd_to_feather. step. simpl.
  destruct (feather_encode data) as [e|b]; [discriminate|].
  autorewrite with world.
  destruct (fs_write (nodes w) (abs_parts w p) b) as [e|fs] eqn:Hw;
    [discriminate|].
  intros [= <-]. eauto.
Qed.

(** Once the target file is written under its version directory, the
    resolution of the load path cannot fail. *)
Lemma resolve_load_after_write (w : World) (sp : Path) (b : Bytes) :
  match _version (this w) with
  | None => True
  | Some _ =>
      exists v, sp = versioned_path (_filepath (this w)) v /\
                is_Some (nodes w !! (abs_parts w (_filepath (this w)) ++ [v]))
  end ->
  nodes w !! abs_parts w sp = Some (File b) ->
  exists lp, resolve_load_path false w = (Ok lp, log EvGetLoadPath w).
Proof.
  intros Hsp Hfile.
  destruct (_version (this w)) as [version|] eqn:Hv.
  - destruct (load version) as [v0|] eqn:Hl.
    + rewrite (resolve_load_pinned w version v0 Hv Hl). eauto.
    + rewrite (resolve_load_latest false w version Hv Hl).
      destruct Hsp as (v & -> & Hdir).
      destruct (find_some_of_hit (has_target w (_filepath (this w)))
                  (version_candidates w (_filepath (this w))) v) as [v1 ->];
        [| |eauto].
      * by apply elem_of_version_candidates, elem_of_fs_listdir.
      * unfold has_target, is_file_at. rewrite fs_lookup_versioned.
        by rewrite Hfile.
  - rewrite (resolve_load_unversioned false w Hv). eauto.
Qed.

Lemma os_absolute_run (p : Path) (w : World) :
  os_absolute p w = (Ok (absolute_in (cwd w) p), w).
Proof. reflexivity. Qed.

Lemma check_paths_consistency_run (load_path save_path : Path) (w : World) :
  check_paths_consistency load_path save_path w
  = (if decide (load_path = save_path) then Ok tt
     else Raised (mkExc InconsistentVersionError
                    ("Save path " +:+ Path_str save_path
                       +:+ " did not match load path " +:+ Path_str load_path
                       +:+ " for " +:+ str_of (this w)) None),
     log (EvCheckPaths load_path save_path) w).
Proof.
  unfold check_paths_consistency. step. simpl. by case_decide.
Qed.

(** What is known once the first three statements of [_save] have run. *)
Lemma written_state {Frame : Type} `{!Feather Frame}
    (data : Frame) (w wa wb w1 : World) (save_path : Path) :
  _get_save_path w = (Ok save_path, wa) ->
  Path_mkdir (Path_parent save_path) wa = (Ok tt, wb) ->
  to_feather data save_path wb = (Ok tt, w1) ->
  exists b,
    feather_encode data = inr b /\
    this w1 = this w /\ cwd w1 = cwd w /\
    trace w1 = trace w ++ [EvGetSavePath; EvMkdir (Path_parent save_path);
                           EvToFeather save_path] /\
    nodes w1 = <[abs_parts w save_path := File b]> (nodes wb) /\
    abs_parts w save_path <> [] /\
    fs_lookup (nodes wb) (removelast (abs_parts w save_path)) = Some Dir /\
    match _version (this w) with
    | None => save_path = _filepath (this w)
    | Some version =>
        save_path = versioned_path (_filepath (this w))
                      (default (timestamp (clock w)) (save version))
    end.
Proof.
  intros Hsave Hmk Hwr.
  apply resolve_save_path_inv in Hsave as (Hthis & Hcwd & Htrace & Hsp).
  apply os_mkdir_inv in Hmk as (fs1 & Hfs1 & ->).
  apply pd_to_feather_inv in Hwr as (b & fs2 & Henc & Hfs2 & ->).
  autorewrite with world in *.
  assert (Habs : forall p, abs_parts wa p = abs_parts w p).
  { intros p. unfold abs_parts. by rewrite Hcwd. }
  rewrite Habs in Hfs2.
  apply fs_write_inv in Hfs2 as (-> & Hne & Hparent).
  exists b. split_and!; try done.
  - rewrite Htrace, <- !app_assoc. done.
  - destruct (_version (this w)); [|by destruct Hsp].
    destruct Hsp as (v0 & fs0 & -> & -> & _). done.
Qed.

(** The tail of [_save]: after the write the load path resolves, and the
    outcome is that of the consistency check on the two absolute paths. *)
Lemma _save_tail {Frame : Type} `{!Feather Frame}
    (data : Frame) (w wa wb w1 : World) (save_path : Path) :
  _get_save_path w = (Ok save_path, wa) ->
  Path_mkdir (Path_parent save_path) wa = (Ok tt, wb) ->
  to_feather data save_path wb = (Ok tt, w1) ->
  exists load_path,
    _get_load_path w1 = (Ok load_path, log EvGetLoadPath w1) /\
    let load_abs := absolute_in (cwd w) load_path in
    let save_abs := absolute_in (cwd w) save_path in
    _save data w
    = (if decide (load_abs = save_abs) then Ok tt
       else Raised (mkExc InconsistentVersionError
                      ("Save path " +:+ Path_str save_abs
                         +:+ " did not match load path " +:+ Path_str load_abs
                         +:+ " for " +:+ str_of (this w)) None),
       log (EvCheckPaths load_abs save_abs) (log EvGetLoadPath w1)) /\
    events w (log (EvCheckPaths load_abs save_abs) (log EvGetLoadPath w1))
    = [EvGetSavePath; EvMkdir (Path_parent save_path);
       EvToFeather save_path; EvGetLoadPath;
       EvCheckPaths load_abs save_abs].
Proof.
  intros Hsave Hmk Hwr.
  destruct (written_state data w wa wb w1 save_path Hsave Hmk Hwr)
    as (b & Henc & Hthis & Hcwd & Htrace & Hnodes & Hne & Hparent & Hsp).
  assert (Habs : forall p, abs_parts w1 p = abs_parts w p).
  { intros p. unfold abs_parts. by rewrite Hcwd. }
  destruct (resolve_load_after_write w1 save_path b) as [load_path Hload].
  { rewrite Hthis. destruct (_version (this w)) as [version|]; [|done].
    eexists. split; [exact Hsp|].
    rewrite Habs, Hnodes. rewrite Hsp in Hparent |- *.
    rewrite abs_parts_versioned in Hparent |- *.
    set (v := default _ _) in *. set (base := _filepath (this w)) in *.
    change [v; Path_name base] with ([v] ++ [Path_name base]) in Hparent |- *.
    rewrite app_assoc in Hparent |- *. rewrite removelast_snoc in Hparent.
    rewrite lookup_insert_ne.
    - unfold fs_lookup in Hparent.
      destruct (abs_parts w base ++ [v]) eqn:E; [|by rewrite Hparent].
      by apply app_eq_nil in E as [_ ?].
    - intros Heq. apply (f_equal length) in Heq.
      rewrite !length_app in Heq. simpl in Heq. lia. }
  { rewrite Habs, Hnodes. apply lookup_insert_eq. }
  pose proof Hload as Hload'.
  change (resolve_load_path false w1) with (_get_load_path w1) in Hload'.
  exists load_path. split; [done|].
  unfold _save.
  rewrite (bind_ok _ _ _ _ _ Hsave), (bind_ok _ _ _ _ _ Hmk),
    (bind_ok _ _ _ _ _ Hwr), (bind_ok _ _ _ _ _ Hload').
  change (@Path_absolute Frame _) with os_absolute.
  change (@_check_paths_consistency Frame _) with check_paths_consistency.
  rewrite (bind_ok _ _ _ _ _ (os_absolute_run load_path _)).
  rewrite (bind_ok _ _ _ _ _ (os_absolute_run save_path _)).
  rewrite check_paths_consistency_run. autorewrite with world.
  rewrite Hcwd, Hthis. split; [done|].
  apply events_app. autorewrite with world. rewrite Htrace.
  by rewrite <- !app_assoc.
Qed.

(** C1: once the save path is resolved, its parent made and the frame
    written, the load path resolves, and [_save] ends with one call of the
    consistency check on the absolute load and save paths, the only such
    call among the five calls it makes; the outcome is success when the two
    are equal and [InconsistentVersionError] when they differ. *)
Theorem save_checks_consistency_once
    {Frame : Type} `{!Feather Frame}
    (data : Frame) (w wa wb w1 : World) (save_path : Path) :
  _get_save_path w = (Ok save_path, wa) ->
  Path_mkdir (Path_parent save_path) wa = (Ok tt, wb) ->
  to_feather data save_path wb = (Ok tt, w1) ->
  exists load_path w2 r w3,
    _get_load_path w1 = (Ok load_path, w2) /\
    _save data w = (r, w3) /\
    let load_abs := absolute_in (cwd w) load_path in
    let save_abs := absolute_in (cwd w) save_path in
    events w w3 = [EvGetSavePath; EvMkdir (Path_parent save_path);
                   EvToFeather save_path; EvGetLoadPath;
                   EvCheckPaths load_abs save_abs] /\
    length (List.filter is_check (events w w3)) = 1 /\
    (load_abs = save_abs -> r = Ok tt) /\
    (load_abs <> save_abs ->
     exists e, r = Raised e /\ exc_class e = InconsistentVersionError).
Proof.
  intros Hsave Hmk Hwr.
  destruct (_save_tail data w wa wb w1 save_path Hsave Hmk Hwr)
    as (load_path & Hload & Hrun & Hev).
  exists load_path. do 3 eexists. split; [exact Hload|].
  split; [exact Hrun|]. simpl. rewrite Hev.
  split; [done|]. split; [done|]. split.
  - intros Heq. by rewrite decide_True.
  - intros Hneq. rewrite decide_False by done. eauto.
Qed.

(** ** Save, then load *)

(** Path resolution reads the instance, the working directory and the nodes,
    and nothing else. *)
Lemma resolve_load_same must_exist (w w' : World) :
  this w = this w' -> cwd w = cwd w' -> nodes w = nodes w' ->
  (resolve_load_path must_exist w).1 = (resolve_load_path must_exist w').1.
Proof.
  destruct w as [t c n k tr], w' as [t' c' n' k' tr']. simpl.
  intros <- <- <-.
  unfold resolve_load_path. step. simpl.
  destruct (_version t) as [version|]; [|done].
  destruct (load version) as [v|].
  - unfold has_target, abs_parts. simpl. by destruct (must_exist && _).
  - unfold has_target, version_candidates, abs_parts. simpl.
    by destruct (List.find _ _).
Qed.

Lemma resolve_load_transport must_exist (w w' : World) (r : Result Path) :
  this w = this w' -> cwd w = cwd w' -> nodes w = nodes w' ->
  resolve_load_path must_exist w = (r, log EvGetLoadPath w) ->
  resolve_load_path must_exist w' = (r, log EvGetLoadPath w').
Proof.
  intros Ht Hc Hn Hres.
  pose proof (resolve_load_same must_exist w w' Ht Hc Hn) as Hsame.
  pose proof (resolve_load_world must_exist w') as Hworld.
  rewrite Hres in Hsame. simpl in Hsame.
  destruct (resolve_load_path must_exist w') as [r' wr]. simpl in *.
  by subst.
Qed.

(** What a successful [_save] leaves behind. *)
Lemma _save_ok_inv {Frame : Type} `{!Feather Frame}
    (data : Frame) (w w1 : World) :
  _save data w = (Ok tt, w1) ->
  exists save_path load_path b,
    feather_encode data = inr b /\
    this w1 = this w /\ cwd w1 = cwd w /\
    resolve_load_path false w1 = (Ok load_path, log EvGetLoadPath w1) /\
    absolute_in (cwd w) load_path = absolute_in (cwd w) save_path /\
    abs_parts w save_path <> [] /\
    nodes w1 !! abs_parts w save_path = Some (File b).
Proof.
  unfold _save. intros H.
  apply bind_inv_ok in H as (save_path & wa & Hsave & H).
  apply bind_inv_ok in H as ([] & wb & Hmk & H).
  apply bind_inv_ok in H as ([] & w' & Hwr & H).
  apply bind_inv_ok in H as (load_path & w2 & Hload & H).
  apply bind_inv_ok in H as (load_abs & w3 & Hla & H).
  apply bind_inv_ok in H as (save_abs & w4 & Hsa & H).
  change (@Path_absolute Frame _) with os_absolute in *.
  change (@_check_paths_consistency Frame _) with check_paths_consistency in *.
  change (@_get_load_path Frame _) with (resolve_load_path false) in *.
  rewrite os_absolute_run in Hla, Hsa.
  injection Hla as <- <-. injection Hsa as <- <-.
  rewrite check_paths_consistency_run in H.
  case_decide as Heq; [|discriminate]. injection H as <-.
  destruct (written_state data w wa wb w' save_path Hsave Hmk Hwr)
    as (b & Henc & Hthis & Hcwd & Htrace & Hnodes & Hne & Hparent & Hsp).
  pose proof (resolve_load_world false w') as Hw2. rewrite Hload in Hw2.
  simpl in Hw2. subst w2. autorewrite with world in *.
  rewrite Hcwd in Heq.
  exists save_path, load_path, b. split_and!; try done.
  - by apply (resolve_load_transport false w').
  - rewrite Hnodes. apply lookup_insert_eq.
Qed.

(** C3: when [_save] of a supported frame has succeeded, [_load] on the same
    instance succeeds and returns a frame equal to the one saved. *)
Theorem save_then_load_round_trip
    {Frame : Type} `{!Feather Frame} (data : Frame) (w w1 : World) :
  supported (_load_args (this w)) data ->
  _save data w = (Ok tt, w1) ->
  exists data' w2,
    _load w1 = (Ok data', w2) /\ frame_equals data data' = true.
Proof.
  intros Hsup Hsaved.
  destruct (_save_ok_inv data w w1 Hsaved)
    as (save_path & load_path & b & Henc & Hthis & Hcwd & Hload & Heq
        & Hne & Hfile).
  destruct (Hsup b Henc) as (data' & Hdec & Hequal).
  exists data'. eexists. split; [|exact Hequal].
  unfold _load. step.
  change (_get_load_path w1) with (resolve_load_path false w1).
  rewrite Hload. simpl.
  rewrite (pd_read_feather_file load_path _ _ b).
  - rewrite Hthis, Hdec. reflexivity.
  - autorewrite with world.
    assert (Hparts : abs_parts w1 load_path = abs_parts w save_path).
    { unfold abs_parts. by rewrite Hcwd, Heq. }
    rewrite Hparts. unfold fs_lookup.
    destruct (abs_parts w save_path); [done|]. exact Hfile.
Qed.

(** ** Creating directories *)

Lemma fs_lookup_ne (fs : gmap (list string) Node) (k : list string) :
  k <> [] -> fs_lookup fs k = fs !! k.
Proof. by destruct k. Qed.

Lemma app_ne_self {A} (l r : list A) : r <> [] -> l <> l ++ r.
Proof.
  intros Hr Heq. apply (f_equal length) in Heq. rewrite length_app in Heq.
  destruct r; [done|]. simpl in Heq. lia.
Qed.

Lemma app_ne_self_l {A} (l r : list A) : r <> [] -> l ++ r <> l.
Proof. intros Hr Heq. symmetry in Heq. by apply app_ne_self in Heq. Qed.

(** [mkdir_from] succeeds when no regular file is in the way; it makes every
    directory on the way and leaves the other nodes alone. *)
Lemma mkdir_from_spec (fs : gmap (list string) Node) (seen rest : list string) :
  (forall r, r <> [] -> r `prefix_of` rest -> is_file_at fs (seen ++ r) = false) ->
  exists fs',
    mkdir_from fs seen rest = inr fs' /\
    (forall r, r <> [] -> r `prefix_of` rest -> fs' !! (seen ++ r) = Some Dir) /\
    (forall k, (forall r, r <> [] -> r `prefix_of` rest -> k <> seen ++ r) ->
               fs' !! k = fs !! k).
Proof.
  revert fs seen. induction rest as [|c rest IH]; intros fs seen Hfree.
  - exists fs. split; [done|]. split; [|done].
    intros r Hr Hp. by apply prefix_nil_inv in Hp.
  - simpl.
    assert (Hc : is_file_at fs (seen ++ [c]) = false).
    { apply Hfree; [done|]. apply prefix_cons, prefix_nil. }
    assert (Hstep : forall fs0,
              fs0 !! (seen ++ [c]) = Some Dir ->
              (forall k, k <> seen ++ [c] -> fs0 !! k = fs !! k) ->
              exists fs',
                mkdir_from fs0 (seen ++ [c]) rest = inr fs' /\
                (forall r, r <> [] -> r `prefix_of` c :: rest ->
                           fs' !! (seen ++ r) = Some Dir) /\
                (forall k, (forall r, r <> [] -> r `prefix_of` c :: rest ->
                                      k <> seen ++ r) ->
                           fs' !! k = fs !! k)).
    { intros fs0 Hd Hother.
      destruct (IH fs0 (seen ++ [c])) as (fs' & Hrun & Hdirs & Hsame).
      { intros r Hr Hp. unfold is_file_at.
        rewrite fs_lookup_ne by (intros E; by apply app_eq_nil in E as [_ ?]).
        rewrite Hother by (by apply app_ne_self_l).
        rewrite <- app_assoc. simpl.
        specialize (Hfree (c :: r)). unfold is_file_at in Hfree.
        rewrite fs_lookup_ne in Hfree
          by (intros E; by apply app_eq_nil in E as [_ ?]).
        apply Hfree; [done|]. by apply prefix_cons. }
      exists fs'. split; [done|]. split.
      - intros r Hr Hp. destruct r as [|c' r]; [done|].
        pose proof (prefix_cons_inv_1 _ _ _ _ Hp) as ->.
        apply prefix_cons_inv_2 in Hp.
        destruct (decide (r = [])) as [->|Hne].
        + rewrite Hsame; [done|]. intros r' Hr' _. by apply app_ne_self.
        + change (c :: r) with ([c] ++ r). rewrite app_assoc. by apply Hdirs.
      - intros k Hk. rewrite Hsame.
        + apply Hother, Hk; [done|]. apply prefix_cons, prefix_nil.
        + intros r Hr Hp. rewrite <- app_assoc. simpl.
          apply Hk; [done|]. by apply prefix_cons. }
    unfold is_file_at in Hc.
    rewrite fs_lookup_ne in Hc by (intros E; by apply app_eq_nil in E as [_ ?]).
    destruct (fs !! (seen ++ [c])) as [[|b]|] eqn:E; [|done|].
    + by apply Hstep.
    + apply Hstep; [apply lookup_insert_eq|].
      intros k Hk. by rewrite lookup_insert_ne.
Qed.

Lemma removelast_not_prefix {A} (k k' : list A) :
  k <> [] -> k' `prefix_of` removelast k -> k <> k'.
Proof.
  intros Hne Hp ->. apply prefix_length in Hp.
  destruct (exists_last Hne) as (l & x & ->).
  rewrite removelast_last, length_app in Hp. simpl in Hp. lia.
Qed.

Lemma fs_mkdir_p_parent (fs : gmap (list string) Node) (k : list string) :
  can_create fs k ->
  exists fs1,
    fs_mkdir_p fs (removelast k) = inr fs1 /\
    can_create fs1 k /\
    (forall k', k' `prefix_of` removelast k -> is_dir_at fs1 k' = true) /\
    (forall k0, ~ k0 `prefix_of` removelast k -> fs1 !! k0 = fs !! k0).
Proof.
  intros (Hne & Hfree & Hnotdir).
  destruct (mkdir_from_spec fs [] (removelast k)) as (fs1 & Hrun & Hdirs & Hsame).
  { intros r _ Hp. by apply Hfree. }
  simpl in *.
  assert (Hdir : forall k', k' `prefix_of` removelast k -> is_dir_at fs1 k' = true).
  { intros k' Hp. unfold is_dir_at. destruct k' as [|c k']; [done|].
    simpl. by rewrite Hdirs. }
  assert (Hout : forall k0, ~ k0 `prefix_of` removelast k -> fs1 !! k0 = fs !! k0).
  { intros k0 Hk0. apply Hsame. by intros r _ Hp ->. }
  exists fs1. split; [done|]. split; [|done].
  split; [done|]. split.
  - intros k' Hp. specialize (Hdir k' Hp). unfold is_dir_at in Hdir.
    unfold is_file_at. by destruct (fs_lookup fs1 k') as [[|?]|].
  - unfold is_dir_at in *. rewrite fs_lookup_ne in * by done.
    rewrite Hout; [done|]. intros Hp. by eapply removelast_not_prefix.
Qed.

Lemma fs_write_ok (fs : gmap (list string) Node) (k : list string) (b : Bytes) :
  k <> [] -> is_dir_at fs (removelast k) = true -> is_dir_at fs k = false ->
  fs_write fs k b = inr (<[k := File b]> fs).
Proof.
  unfold fs_write, is_dir_at. intros Hne Hparent Hnotdir.
  destruct k as [|c k]; [done|].
  destruct (fs_lookup fs (removelast (c :: k))) as [[|?]|]; try done.
  simpl in Hnotdir. by destruct (fs !! (c :: k)) as [[|?]|].
Qed.

(** ** Saving where the directories are missing *)

Lemma abs_parts_parent w (p : Path) :
  parts p <> [] -> abs_parts w (Path_parent p) = removelast (abs_parts w p).
Proof.
  intros Hne. unfold abs_parts, absolute_in, Path_parent. simpl.
  destruct (anchored p); simpl; [done|]. by rewrite removelast_app.
Qed.

Lemma abs_parts_same_cwd w w' p : cwd w' = cwd w -> abs_parts w' p = abs_parts w p.
Proof. intros Hc. unfold abs_parts. by rewrite Hc. Qed.

Lemma resolve_save_path_ok (w : World) :
  parts (save_target w) <> [] ->
  can_create (nodes w) (abs_parts w (save_target w)) ->
  exists wa,
    resolve_save_path w = (Ok (save_target w), wa) /\
    this wa = this w /\ cwd wa = cwd w /\
    trace wa = trace w ++ [EvGetSavePath] /\
    can_create (nodes wa) (abs_parts w (save_target w)) /\
    (forall k0, ~ k0 `prefix_of` removelast (abs_parts w (save_target w)) ->
                nodes wa !! k0 = nodes w !! k0).
Proof.
  intros Hparts Hcan. unfold resolve_save_path, save_target in *. step. simpl.
  destruct (_version (this w)) as [version|].
  - destruct (fs_mkdir_p_parent _ _ Hcan) as (fs1 & Hmk & Hcan1 & _ & Hout).
    rewrite <- abs_parts_parent in Hmk by done.
    destruct (save version) as [v|]; simpl in *; autorewrite with world;
      rewrite Hmk; eexists; (split; [reflexivity|]); by autorewrite with world.
  - eexists. split; [reflexivity|]. by autorewrite with world.
Qed.

Lemma os_mkdir_ok (p : Path) (w : World) :
  parts p <> [] ->
  can_create (nodes w) (abs_parts w p) ->
  exists wb,
    os_mkdir (Path_parent p) w = (Ok tt, wb) /\
    this wb = this w /\ cwd wb = cwd w /\
    trace wb = trace w ++ [EvMkdir (Path_parent p)] /\
    can_create (nodes wb) (abs_parts w p) /\
    (forall k', k' `prefix_of` removelast (abs_parts w p) ->
                is_dir_at (nodes wb) k' = true) /\
    (forall k0, ~ k0 `prefix_of` removelast (abs_parts w p) ->
                nodes wb !! k0 = nodes w !! k0).
Proof.
  intros Hparts Hcan. unfold os_mkdir. step. simpl. autorewrite with world.
  destruct (fs_mkdir_p_parent _ _ Hcan) as (fs1 & Hmk & Hcan1 & Hdirs & Hout).
  rewrite <- abs_parts_parent in Hmk by done. rewrite Hmk.
  eexists. split; [reflexivity|]. by autorewrite with world.
Qed.

Lemma pd_to_feather_ok {Frame : Type} `{!Feather Frame}
    (data : Frame) (b : Bytes) (p : Path) (w : World) :
  feather_encode data = inr b ->
  abs_parts w p <> [] ->
  is_dir_at (nodes w) (removelast (abs_parts w p)) = true ->
  is_dir_at (nodes w) (abs_parts w p) = false ->
  pd_to_feather data p w
  = (Ok tt, set_nodes (<[abs_parts w p := File b]> (nodes w))
                      (log (EvToFeather p) w)).
Proof.
  intros Henc Hne Hparent Hnotdir. unfold pd_to_feather. step. simpl.
  rewrite Henc. autorewrite with world.
  by rewrite (fs_write_ok _ _ b Hne Hparent Hnotdir).
Qed.

(** The saved versions after version [v] has been written: [v], and those
    there were. *)
Lemma saved_after_write (w w1 : World) (fs : gmap (list string) Node)
    (v : string) (b : Bytes) :
  let base := _filepath (this w) in
  this w1 = this w -> cwd w1 = cwd w ->
  nodes w1 = <[abs_parts w (versioned_path base v) := File b]> fs ->
  is_Some (fs !! (abs_parts w base ++ [v])) ->
  (forall k0, ~ k0 `prefix_of` abs_parts w base ++ [v] -> fs !! k0 = nodes w !! k0) ->
  saved w1 v /\ forall v', saved w1 v' -> v' = v \/ saved w v'.
Proof.
  intros base Hthis Hcwd Hnodes Hdir Hout.
  assert (Habs : forall p, abs_parts w1 p = abs_parts w p).
  { intros p. by apply abs_parts_same_cwd. }
  assert (Hlen : forall (l : list string) x y z, l ++ [x; y] <> l ++ [z]).
  { intros l x y z Heq. apply (f_equal length) in Heq.
    rewrite !length_app in Heq. simpl in Heq. lia. }
  unfold saved, has_target, is_file_at.
  rewrite Hthis. fold base. setoid_rewrite elem_of_fs_listdir.
  setoid_rewrite fs_lookup_versioned. setoid_rewrite Habs.
  rewrite Hnodes. setoid_rewrite abs_parts_versioned. split.
  - split.
    + rewrite lookup_insert_ne by apply Hlen. done.
    + by rewrite lookup_insert_eq.
  - intros v' [Hin Ht]. destruct (decide (v' = v)) as [->|Hne]; [by left|].
    right. rewrite lookup_insert_ne in Hin by apply Hlen.
    rewrite lookup_insert_ne in Ht.
    2:{ intros Heq. apply app_inv_head in Heq. congruence. }
    rewrite Hout in Hin.
    2:{ intros Hp. apply prefix_app_inv in Hp.
        destruct Hp as [r Hr]. simpl in Hr. congruence. }
    rewrite Hout in Ht.
    2:{ intros Hp. apply prefix_length in Hp. rewrite !length_app in Hp.
        simpl in Hp. lia. }
    done.
Qed.

(** C5: where a file can be created at the save path, whether or not its
    parent directories exist yet, and the writer accepts the frame, [_save]
    first resolves the save path, then makes the parent directory, then
    calls the writer; afterwards every directory above the target exists and
    the target holds the encoded frame.  Nothing but the consistency check
    can then fail: the save succeeds for a dataset without versioning, and
    for one with an unset load identifier whose saved versions are all at
    most the version written. *)
Theorem save_creates_missing_directories
    {Frame : Type} `{!Feather Frame} (data : Frame) (b : Bytes) (w : World) :
  let target := save_target w in
  parts target <> [] ->
  feather_encode data = inr b ->
  (forall k, k `prefix_of` abs_parts w (Path_parent target) ->
             is_file_at (nodes w) k = false) ->
  is_dir_at (nodes w) (abs_parts w target) = false ->
  exists r w',
    _save data w = (r, w') /\
    (exists rest, events w w' = EvGetSavePath :: EvMkdir (Path_parent target)
                                  :: EvToFeather target :: rest) /\
    (forall k, k `prefix_of` abs_parts w (Path_parent target) ->
               is_dir_at (nodes w') k = true) /\
    nodes w' !! abs_parts w target = Some (File b) /\
    (r = Ok tt \/
     exists e, r = Raised e /\ exc_class e = InconsistentVersionError) /\
    (_version (this w) = None -> r = Ok tt) /\
    (forall version,
       _version (this w) = Some version -> load version = None ->
       (forall v', saved w v' ->
                   String.leb v' (default (timestamp (clock w)) (save version))
                   = true) ->
       r = Ok tt).
Proof.
  intros target Hparts Henc Hfree Hnotdir.
  assert (Hne : abs_parts w target <> []).
  { unfold abs_parts, absolute_in. destruct (anchored target); simpl; [done|].
    intros E. by apply app_eq_nil in E as [_ ?]. }
  rewrite abs_parts_parent in Hfree by done.
  setoid_rewrite (abs_parts_parent w target Hparts).
  assert (Hcan : can_create (nodes w) (abs_parts w target)) by done.
  destruct (resolve_save_path_ok w Hparts Hcan)
    as (wa & Hsave & Hta & Hca & Htra & Hcana & Houta).
  fold target in Hsave, Hcana, Houta.
  rewrite <- (abs_parts_same_cwd w wa target Hca) in Hcana.
  destruct (os_mkdir_ok target wa Hparts Hcana)
    as (wb & Hmk & Htb & Hcb & Htrb & Hcanb & Hdirs & Houtb).
  rewrite (abs_parts_same_cwd w wa target Hca) in Hcanb, Hdirs, Houtb.
  assert (Hcwdb : cwd wb = cwd w) by congruence.
  destruct Hcanb as (_ & _ & Hnotdirb).
  pose proof (pd_to_feather_ok data b target wb Henc) as Hwr.
  rewrite (abs_parts_same_cwd w wb target Hcwdb) in Hwr.
  specialize (Hwr Hne (Hdirs _ (reflexivity _)) Hnotdirb).
  set (w1 := set_nodes _ _) in Hwr.
  destruct (_save_tail data w wa wb w1 target Hsave Hmk Hwr)
    as (load_path & Hload & Hrun & Hev).
  simpl in Hrun, Hev.
  change (_get_load_path w1) with (resolve_load_path false w1) in Hload.
  do 2 eexists. split; [exact Hrun|]. rewrite Hev. autorewrite with world.
  split; [eauto|]. split.
  { intros k Hk. unfold is_dir_at. destruct k as [|c k]; [done|]. simpl.
    subst w1. autorewrite with world. rewrite lookup_insert_ne.
    - apply (Hdirs _ Hk).
    - by apply removelast_not_prefix. }
  split.
  { subst w1. autorewrite with world. apply lookup_insert_eq. }
  split.
  { case_decide; eauto. }
  split.
  - intros Hv. rewrite (resolve_load_unversioned false w1) in Hload.
    + injection Hload as <-. subst w1. autorewrite with world.
      rewrite Htb, Hta. unfold target, save_target. rewrite Hv.
      by rewrite decide_True.
    + subst w1. autorewrite with world. congruence.
  - intros version Hv Hl Hmax.
    assert (Hthis1 : this w1 = this w).
    { subst w1. autorewrite with world. congruence. }
    assert (Htarget : target = versioned_path (_filepath (this w))
                                 (default (timestamp (clock w)) (save version))).
    { unfold target, save_target. by rewrite Hv. }
    set (v := default _ _) in *.
    pose proof (resolve_load_latest_spec false w1 version) as Hspec.
    rewrite Hthis1 in Hspec. specialize (Hspec Hv Hl). rewrite Hload in Hspec.
    destruct Hspec as (v1 & -> & Hsaved1 & Hmax1).
    destruct (saved_after_write w w1 (nodes wb) v b) as [Hsv Hothers].
    + exact Hthis1.
    + subst w1. by autorewrite with world.
    + subst w1. autorewrite with world. by rewrite Htarget.
    + pose proof (Hdirs _ (reflexivity _)) as Hd. unfold is_dir_at in Hd.
      rewrite Htarget, abs_parts_versioned in Hd.
      change [v; Path_name (_filepath (this w))]
        with ([v] ++ [Path_name (_filepath (this w))]) in Hd.
      rewrite app_assoc, removelast_snoc in Hd.
      rewrite fs_lookup_ne in Hd
        by (intros E; by apply app_eq_nil in E as [_ ?]).
      by destruct (nodes wb !! _).
    + intros k0 Hk0.
      assert (Hk0' : ~ k0 `prefix_of` removelast (abs_parts w target)).
      { rewrite Htarget, abs_parts_versioned.
        change [v; Path_name (_filepath (this w))]
          with ([v] ++ [Path_name (_filepath (this w))]).
        by rewrite app_assoc, removelast_snoc. }
      by rewrite Houtb, Houta.
    + assert (v1 = v) as ->.
      { apply String.leb_antisym.
        - destruct (Hothers v1 Hsaved1) as [->|Hold]; [apply leb_refl|].
          by apply Hmax.
        - by apply Hmax1. }
      rewrite Htarget. by rewrite decide_True.
Qed.

(** ** What a call may change *)

Lemma wb_ret {A} (a : A) : well_behaved (mret a).
Proof. intros w. simpl. split_and!; try done. exists []. by rewrite app_nil_r. Qed.

Lemma wb_raise {A} (e : Exc) : well_behaved (@raise A e).
Proof. intros w. simpl. split_and!; try done. exists []. by rewrite app_nil_r. Qed.

Lemma wb_lift_result {A} (r : Exc + A) : well_behaved (lift_result r).
Proof. destruct r; [apply wb_raise | apply wb_ret]. Qed.

Lemma wb_get_world : well_behaved get_world.
Proof. intros w. simpl. split_and!; try done. exists []. by rewrite app_nil_r. Qed.

Lemma wb_get_self : well_behaved get_self.
Proof. intros w. simpl. split_and!; try done. exists []. by rewrite app_nil_r. Qed.

Lemma wb_emit (ev : Event) : well_behaved (emit ev).
Proof. intros w. simpl. split_and!; try done. by exists [ev]. Qed.

Lemma wb_set_nodes (fs : gmap (list string) Node) : well_behaved (modify (set_nodes fs)).
Proof. intros w. simpl. split_and!; try done. exists []. by rewrite app_nil_r. Qed.

Lemma wb_set_clock (n : nat) : well_behaved (modify (set_clock n)).
Proof. intros w. simpl. split_and!; try done. exists []. by rewrite app_nil_r. Qed.

Lemma wb_bind {A B} (c : M A) (f : A -> M B) :
  well_behaved c -> (forall a, well_behaved (f a)) -> well_behaved (c ≫= f).
Proof.
  intros Hc Hf w. unfold mbind, M_bind.
  destruct (Hc w) as (Ht & Hd & evs & Htr).
  destruct (c w) as [[a|e] w1]; simpl in *; [|eauto].
  destruct (Hf a w1) as (Ht' & Hd' & evs' & Htr').
  split; [congruence|]. split; [congruence|].
  exists (evs ++ evs'). by rewrite Htr', Htr, app_assoc.
Qed.

Lemma wb_try_except {A B} (body : M A) (cls : ExcClass)
    (handler : M B) (rest : A -> M B) :
  well_behaved body -> well_behaved handler -> (forall a, well_behaved (rest a)) ->
  well_behaved (try_except body cls handler rest).
Proof.
  intros Hb Hh Hr w. unfold try_except.
  destruct (Hb w) as (Ht & Hd & evs & Htr).
  destruct (body w) as [[a|e] w1]; simpl in *.
  - destruct (Hr a w1) as (Ht' & Hd' & evs' & Htr').
    split; [congruence|]. split; [congruence|].
    exists (evs ++ evs'). by rewrite Htr', Htr, app_assoc.
  - destruct (isinstance e cls); [|eauto].
    destruct (Hh w1) as (Ht' & Hd' & evs' & Htr').
    split; [congruence|]. split; [congruence|].
    exists (evs ++ evs'). by rewrite Htr', Htr, app_assoc.
Qed.

Lemma wb_try_catch_all {A} (body : M A) (handler : Exc -> M A) :
  well_behaved body -> (forall e, well_behaved (handler e)) ->
  well_behaved (try_catch_all body handler).
Proof.
  intros Hb Hh w. unfold try_catch_all.
  destruct (Hb w) as (Ht & Hd & evs & Htr).
  destruct (body w) as [[a|e] w1]; simpl in *; [eauto|].
  destruct (Hh e w1) as (Ht' & Hd' & evs' & Htr').
  split; [congruence|]. split; [congruence|].
  exists (evs ++ evs'). by rewrite Htr', Htr, app_assoc.
Qed.

Lemma starts_emit_bind {B} (ev : Event) (f : unit -> M B) :
  (forall a, well_behaved (f a)) -> starts_with ev (emit ev ≫= f).
Proof.
  intros Hf w. unfold mbind, M_bind. simpl.
  destruct (Hf tt (log ev w)) as (_ & _ & evs & Htr).
  exists evs. rewrite Htr. simpl. by rewrite <- app_assoc.
Qed.

Lemma starts_bind {A B} (ev : Event) (c : M A) (f : A -> M B) :
  starts_with ev c -> (forall a, well_behaved (f a)) -> starts_with ev (c ≫= f).
Proof.
  intros Hc Hf w. unfold mbind, M_bind.
  destruct (Hc w) as (rest & Htr).
  destruct (c w) as [[a|e] w1]; simpl in *; [|eauto].
  destruct (Hf a w1) as (_ & _ & evs' & Htr').
  exists (rest ++ evs'). rewrite Htr', Htr, <- app_assoc. done.
Qed.

Lemma starts_try_except {A B} (ev : Event) (body : M A) (cls : ExcClass)
    (handler : M B) (rest : A -> M B) :
  starts_with ev body -> well_behaved handler -> (forall a, well_behaved (rest a)) ->
  starts_with ev (try_except body cls handler rest).
Proof.
  intros Hb Hh Hr w. unfold try_except.
  destruct (Hb w) as (evs & Htr).
  destruct (body w) as [[a|e] w1]; simpl in *.
  - destruct (Hr a w1) as (_ & _ & evs' & Htr').
    exists (evs ++ evs'). rewrite Htr', Htr, <- app_assoc. done.
  - destruct (isinstance e cls); [|eauto].
    destruct (Hh w1) as (_ & _ & evs' & Htr').
    exists (evs ++ evs'). rewrite Htr', Htr, <- app_assoc. done.
Qed.

Lemma starts_try_catch_all {A} (ev : Event) (body : M A) (handler : Exc -> M A) :
  starts_with ev body -> (forall e, well_behaved (handler e)) ->
  starts_with ev (try_catch_all body handler).
Proof.
  intros Hb Hh w. unfold try_catch_all.
  destruct (Hb w) as (evs & Htr).
  destruct (body w) as [[a|e] w1]; simpl in *; [eauto|].
  destruct (Hh e w1) as (_ & _ & evs' & Htr').
  exists (evs ++ evs'). rewrite Htr', Htr, <- app_assoc. done.
Qed.

(** One step of a proof that a computation is well behaved. *)
Ltac wb_step :=
  first
    [ apply wb_ret | apply wb_raise | apply wb_lift_result | apply wb_get_world
    | apply wb_get_self | apply wb_emit | apply wb_set_nodes | apply wb_set_clock
    | apply wb_bind; [|intros ?]
    | match goal with
      | |- well_behaved (match ?x with _ => _ end) => destruct x
      | |- well_behaved (if ?x then _ else _) => destruct x
      end ].

Ltac wb := repeat wb_step.

Lemma wb___str__ : well_behaved __str__.
Proof. unfold __str__, _describe. wb. Qed.

Lemma wb_resolve_load_path must_exist : well_behaved (resolve_load_path must_exist).
Proof. unfold resolve_load_path. wb. Qed.

Lemma wb_generate_timestamp : well_behaved generate_timestamp.
Proof. unfold generate_timestamp. wb. Qed.

Lemma wb_resolve_save_path : well_behaved resolve_save_path.
Proof. unfold resolve_save_path. wb. Qed.

Lemma wb_check_paths_consistency lp sp : well_behaved (check_paths_consistency lp sp).
Proof. unfold check_paths_consistency. wb. Qed.

Lemma wb_os_absolute p : well_behaved (os_absolute p).
Proof. unfold os_absolute. wb. Qed.

Lemma wb_os_mkdir p : well_behaved (os_mkdir p).
Proof. unfold os_mkdir. wb. Qed.

Lemma wb_os_is_file p : well_behaved (os_is_file p).
Proof. unfold os_is_file. wb. Qed.

Lemma wb_pd_to_feather {Frame : Type} `{!Feather Frame} (data : Frame) p :
  well_behaved (pd_to_feather data p).
Proof. unfold pd_to_feather. wb. Qed.

Lemma wb_pd_read_feather {Frame : Type} `{!Feather Frame} p args :
  well_behaved (pd_read_feather p args).
Proof. unfold pd_read_feather. wb. Qed.

Section Frame.
Context {Frame : Type} `{!Feather Frame}.

Lemma wb__load : well_behaved (_load (Frame := Frame)).
Proof.
  unfold _load. apply wb_bind; [apply wb_get_self|]. intros self.
  apply wb_bind; [apply (wb_resolve_load_path false)|]. intros load_path.
  apply wb_pd_read_feather.
Qed.

Lemma wb__save_rest (data : Frame) (save_path : Path) :
  well_behaved
    (Path_mkdir (Path_parent save_path);;
     to_feather data save_path;;
     load_path ← _get_load_path;
     load_abs ← Path_absolute load_path;
     save_abs ← Path_absolute save_path;
     _check_paths_consistency load_abs save_abs).
Proof.
  apply wb_bind; [apply wb_os_mkdir|]. intros _.
  apply wb_bind; [apply wb_pd_to_feather|]. intros _.
  apply wb_bind; [apply (wb_resolve_load_path false)|]. intros load_path.
  apply wb_bind; [apply wb_os_absolute|]. intros load_abs.
  apply wb_bind; [apply wb_os_absolute|]. intros save_abs.
  apply wb_check_paths_consistency.
Qed.

Lemma wb__save (data : Frame) : well_behaved (_save data).
Proof.
  unfold _save.
  apply wb_bind; [apply wb_resolve_save_path|]. intros save_path.
  apply wb__save_rest.
Qed.

Lemma wb__exists : well_behaved (_exists (Frame := Frame)).
Proof.
  unfold _exists. apply wb_try_except.
  - apply (wb_resolve_load_path false).
  - apply wb_ret.
  - intros p. apply wb_os_is_file.
Qed.

Lemma starts_resolve_load_path must_exist :
  starts_with EvGetLoadPath (resolve_load_path must_exist).
Proof.
  intros w. exists []. by rewrite resolve_load_world.
Qed.

Lemma starts_resolve_save_path : starts_with EvGetSavePath resolve_save_path.
Proof.
  unfold resolve_save_path. apply starts_emit_bind. intros _.
  wb.
Qed.

Lemma wb_wrap (msg : string) (exc : Exc) {A} :
  well_behaved (if isinstance exc DataSetError then raise exc
                else s ← __str__;
                     @raise A (mkExc DataSetError
                              (msg +:+ s +:+ "." +:+ newline +:+ exc_msg exc)
                              (Some exc))).
Proof. wb. Qed.

Lemma pd_read_feather_same (p : Path) (args : Args) (w w' : World) :
  cwd w' = cwd w -> nodes w' = nodes w ->
  (pd_read_feather p args w').1 = (pd_read_feather (Frame := Frame) p args w).1.
Proof.
  intros Hc Hn. unfold pd_read_feather. step. simpl.
  autorewrite with world. rewrite (abs_parts_same_cwd w w' p Hc), Hn.
  destruct (fs_read (nodes w) (abs_parts w p)) as [e|b]; [done|].
  simpl. by destruct (feather_decode args b).
Qed.

(** C9: [_load], [_save], [_exists] and [_describe], and [load] and [save]
    around them, end with the instance they started with; the first call
    made by [_load] and by [_exists] is the resolution of the load path,
    the first made by [_save] that of the save path; and what [_exists] and
    [_load] return is determined by the instance, the working directory and
    the files at the time of the call. *)
Theorem calls_leave_the_instance_unchanged (data : Frame) (w : World) :
  this (_load w).2 = this w /\
  this (_save data w).2 = this w /\
  this (_exists w).2 = this w /\
  this (_describe w).2 = this w /\
  this (AbstractDataSet_load w).2 = this w /\
  this (AbstractDataSet_save data w).2 = this w /\
  (exists rest, events w (_load w).2 = EvGetLoadPath :: rest) /\
  (exists rest, events w (_save data w).2 = EvGetSavePath :: rest) /\
  (exists rest, events w (_exists w).2 = EvGetLoadPath :: rest) /\
  (forall w', this w' = this w -> cwd w' = cwd w -> nodes w' = nodes w ->
              (_exists w').1 = (_exists w).1 /\ (_load w').1 = (_load w).1).
Proof.
  split; [apply wb__load|]. split; [apply wb__save|].
  split; [apply wb__exists|]. split; [done|].
  split.
  { apply (wb_try_catch_all _load); [apply wb__load|].
    intros e. apply wb_wrap. }
  split.
  { apply (wb_try_catch_all (_save data)); [apply wb__save|].
    intros e. apply wb_wrap. }
  split.
  { destruct (starts_bind EvGetLoadPath (resolve_load_path false)
                (fun load_path =>
                   pd_read_feather (Frame := Frame) load_path
                     (_load_args (this w)))
                (starts_resolve_load_path false)
                (fun p => wb_pd_read_feather p _) w) as [rest Hrest].
    exists rest. by apply events_app. }
  split.
  { destruct (starts_bind EvGetSavePath _ _ starts_resolve_save_path
                (wb__save_rest data) w) as [rest Hrest].
    exists rest. by apply events_app. }
  split.
  { destruct (starts_try_except EvGetLoadPath (resolve_load_path false)
                DataSetError (mret false) os_is_file
                (starts_resolve_load_path false) (wb_ret false)
                wb_os_is_file w) as [rest Hrest].
    exists rest. by apply events_app. }
  intros w' Ht Hc Hn.
  pose proof (resolve_load_same false w' w Ht Hc Hn) as Hsame.
  pose proof (resolve_load_world false w') as Hw'.
  pose proof (resolve_load_world false w) as Hw.
  split.
  - rewrite !_exists_run.
    destruct (resolve_load_path false w') as [r' w1'],
             (resolve_load_path false w) as [r w1].
    simpl in *. subst.
    destruct r as [p|e]; [|done].
    simpl. by rewrite (abs_parts_same_cwd w w' p Hc), Hn.
  - unfold _load. step.
    change (@_get_load_path Frame _) with (resolve_load_path false).
    change (@read_feather Frame _) with (pd_read_feather (Frame := Frame)).
    destruct (resolve_load_path false w') as [r' w1'],
             (resolve_load_path false w) as [r w1].
    simpl in *. subst.
    destruct r as [p|e]; [|done].
    rewrite Ht. by apply pd_read_feather_same.
Qed.
End Frame.

(** ** Concrete runs *)

Example exists_before_any_save :
  (_exists (fresh_world plain)).1 = Ok false /\
  (_exists (fresh_world versioned)).1 = Ok false.
Proof. split; vm_compute; reflexivity. Qed.

Example exists_after_save :
  (_exists (_save frame1 (fresh_world plain)).2).1 = Ok true.
Proof. vm_compute. reflexivity. Qed.

Example three_saves_succeed :
  (_save frame1 (fresh_world (saving_as "v1"))).1 = Ok tt /\
  (_save frame2 (with_self (saving_as "v2")
                   (_save frame1 (fresh_world (saving_as "v1"))).2)).1 = Ok tt /\
  (_save frame1 (fresh_world versioned)).1 = Ok tt.
Proof. split_and!; vm_compute; reflexivity. Qed.

Example load_latest_of_three :
  (_load three_versions).1 = Ok frame3.
Proof. vm_compute. reflexivity. Qed.

Example diverging_versions_fail :
  let self := __init__ "data/out/test.feather" None
                (Some (mkVersion (Some "v1") (Some "v2"))) in
  match (_save frame1 (fresh_world self)).1 with
  | Raised e => exc_class e = InconsistentVersionError
  | Ok _ => False
  end.
Proof. vm_compute. reflexivity. Qed.

Example load_missing_message :
  match (AbstractDataSet_load (fresh_world plain)).1 with
  | Raised e =>
      exc_class e = DataSetError /\
      String.prefix
        "Failed while loading data from data set FeatherLocalDataSet(filepath=data/out/test.feather"
        (exc_msg e) = true
  | Ok _ => False
  end.
Proof. vm_compute. split; reflexivity. Qed.

(** [_exists] when resolution or [is_file] raise. *)
Example exists_propagates_other_errors :
  let w := fresh_world plain in
  _exists (Deps0 := failing_deps permission_denied (raise permission_denied)
                      (fun _ => mret true)) w
  = (Raised permission_denied, w) /\
  _exists (Deps0 := failing_deps permission_denied (mret (_filepath plain))
                      (fun _ => raise permission_denied)) w
  = (Raised permission_denied, w) /\
  _exists (Deps0 := failing_deps permission_denied (raise no_version)
                      (fun _ => mret true)) w
  = (Ok false, w).
Proof. split_and!; reflexivity. Qed.

Lemma save_checks_consistency_once_witness :
  (_get_save_path (fresh_world plain) = (Ok run_sp, run_wa) /\
   Path_mkdir (Path_parent run_sp) run_wa = (Ok tt, run_wb) /\
   to_feather frame1 run_sp run_wb = (Ok tt, run_w1)) /\
  exists load_path w2 r w3,
    _get_load_path run_w1 = (Ok load_path, w2) /\
    _save frame1 (fresh_world plain) = (r, w3) /\
    let load_abs := absolute_in (cwd (fresh_world plain)) load_path in
    let save_abs := absolute_in (cwd (fresh_world plain)) run_sp in
    events (fresh_world plain) w3
    = [EvGetSavePath; EvMkdir (Path_parent run_sp); EvToFeather run_sp;
       EvGetLoadPath; EvCheckPaths load_abs save_abs] /\
    length (List.filter is_check (events (fresh_world plain) w3)) = 1 /\
    (load_abs = save_abs -> r = Ok tt) /\
    (load_abs <> save_abs ->
     exists e, r = Raised e /\ exc_class e = InconsistentVersionError).
Proof.
  split.
  - split_and!; vm_compute; reflexivity.
  - apply (save_checks_consistency_once frame1 (fresh_world plain)
             run_wa run_wb run_w1 run_sp); vm_compute; reflexivity.
Defined.

Lemma save_then_load_round_trip_witness :
  (supported (_load_args (this (fresh_world plain))) frame1 /\
   _save frame1 (fresh_world plain)
   = (Ok tt, (_save frame1 (fresh_world plain)).2)) /\
  exists data' w2,
    _load (_save frame1 (fresh_world plain)).2 = (Ok data', w2) /\
    frame_equals frame1 data' = true.
Proof.
  assert (Hsup : supported (_load_args (this (fresh_world plain))) frame1).
  { intros b [= <-]. exists frame1. split; reflexivity. }
  assert (Hsave : _save frame1 (fresh_world plain)
                  = (Ok tt, (_save frame1 (fresh_world plain)).2)).
  { vm_compute. reflexivity. }
  split; [by split|].
  exact (save_then_load_round_trip frame1 (fresh_world plain) _ Hsup Hsave).
Defined.

Lemma save_creates_missing_directories_witness :
  let w := fresh_world plain in
  let target := save_target w in
  (parts target <> [] /\
   feather_encode frame1 = inr frame1 /\
   (forall k, k `prefix_of` abs_parts w (Path_parent target) ->
              is_file_at (nodes w) k = false) /\
   is_dir_at (nodes w) (abs_parts w target) = false) /\
  exists r w',
    _save frame1 w = (r, w') /\
    (exists rest, events w w' = EvGetSavePath :: EvMkdir (Path_parent target)
                                  :: EvToFeather target :: rest) /\
    (forall k, k `prefix_of` abs_parts w (Path_parent target) ->
               is_dir_at (nodes w') k = true) /\
    nodes w' !! abs_parts w target = Some (File frame1) /\
    (r = Ok tt \/
     exists e, r = Raised e /\ exc_class e = InconsistentVersionError) /\
    (_version (this w) = None -> r = Ok tt) /\
    (forall version,
       _version (this w) = Some version -> load version = None ->
       (forall v', saved w v' ->
                   String.leb v' (default (timestamp (clock w)) (save version))
                   = true) ->
       r = Ok tt).
Proof.
  assert (H1 : parts (save_target (fresh_world plain)) <> []) by (vm_compute; done).
  assert (H2 : feather_encode frame1 = inr frame1) by reflexivity.
  assert (H3 : forall k,
             k `prefix_of` abs_parts (fresh_world plain)
                             (Path_parent (save_target (fresh_world plain))) ->
             is_file_at (nodes (fresh_world plain)) k = false).
  { intros k _. destruct k; reflexivity. }
  assert (H4 : is_dir_at (nodes (fresh_world plain))
                 (abs_parts (fresh_world plain) (save_target (fresh_world plain)))
               = false) by (vm_compute; reflexivity).
  split; [by split_and!|].
  exact (save_creates_missing_directories frame1 frame1 (fresh_world plain)
           H1 H2 H3 H4).
Defined.

Lemma load_of_missing_dataset_fails_witness :
  never_saved (fresh_world plain) /\
  exists e w' d pre post,
    AbstractDataSet_load (fresh_world plain) = (Raised e, w') /\
    isinstance e DataSetError = true /\
    _describe (fresh_world plain) = (Ok d, fresh_world plain) /\
    exc_msg e = pre +:+ (type_name +:+ "(" +:+ to_str d +:+ ")") +:+ post.
Proof.
  assert (Hnever : never_saved (fresh_world plain)) by (vm_compute; reflexivity).
  split; [exact Hnever|].
  exact (load_of_missing_dataset_fails (fresh_world plain) Hnever).
Defined.

Lemma unset_load_resolves_to_latest_version_witness :
  (_version (this three_versions) = Some (mkVersion None None) /\
   load (mkVersion None None) = None) /\
  match resolve_load_path false three_versions with
  | (Ok p, w1) =>
      exists v b,
        p = versioned_path (_filepath (this three_versions)) v /\
        saved three_versions v /\
        (forall v', saved three_versions v' -> String.leb v' v = true) /\
        nodes three_versions !! abs_parts three_versions p = Some (File b) /\
        exists w2,
          _load three_versions
          = (match feather_decode (_load_args (this three_versions)) b with
             | inl e => Raised e
             | inr data => Ok data
             end, w2)
  | (Raised e, w1) =>
      exc_class e = VersionNotFoundError /\ forall v, ~ saved three_versions v
  end.
Proof.
  assert (Hv : _version (this three_versions) = Some (mkVersion None None))
    by reflexivity.
  assert (Hl : load (mkVersion None None) = None) by reflexivity.
  pose proof (unset_load_resolves_to_latest_version false three_versions
                (mkVersion None None) Hv Hl) as Hlatest.
  split; [by split|]. exact Hlatest.
Defined.

(** * Beyond the contract *)

(** ** The constructor *)

(** X1: the adapter has no default options of its own, so what [__init__]
    stores is the caller's mapping, key for key and nothing else; passing no
    options and passing an empty mapping build the same instance; and
    [_describe] gives back the three constructor arguments.  In general
    [{**d, **u}] has the keys of both mappings, leaves [d] alone where [u] is
    silent, and merging a mapping into itself changes nothing. *)
Theorem init_stores_the_arguments
    (filepath : string) (user : Args) (version : option Version)
    (wd : list string) (fs : gmap (list string) Node) (n : nat)
    (tr : list Event) :
  let self := __init__ filepath (Some user) version in
  let w := mkWorld self wd fs n tr in
  _load_args self = user /\
  __init__ filepath None version = __init__ filepath (Some ∅) version /\
  _describe w
  = (Ok (<["filepath" := AttrPath (Path_of_string filepath)]>
         (<["load_args" := AttrArgs user]>
         (<["version" := AttrVersion version]> ∅))), w) /\
  (forall d u : Args, dom (dict_merge d u) = dom d ∪ dom u) /\
  (forall (d u : Args) k, u !! k = None -> dict_merge d u !! k = d !! k) /\
  (forall d : Args, dict_merge d d = d).
Proof.
  assert (Hstored : dict_merge default_load_args user = user).
  { unfold dict_merge, default_load_args. apply (right_id_L ∅ (∪)). }
  simpl. split_and!.
  - exact Hstored.
  - unfold __init__. f_equal.
  - unfold _describe. step. simpl. by rewrite Hstored.
  - intros d u. unfold dict_merge. rewrite dom_union_L. apply (comm_L (∪)).
  - intros d u k Hk. by rewrite dict_merge_lookup, Hk.
  - intros d. unfold dict_merge. apply (idemp_L (∪)).
Qed.

(** ** Reading does not write *)

Lemma pd_read_feather_world {Frame : Type} `{!Feather Frame}
    (p : Path) (args : Args) (w : World) :
  (pd_read_feather p args w).2 = log (EvReadFeather p args) w.
Proof.
  unfold pd_read_feather. step. simpl. autorewrite with world.
  destruct (fs_read (nodes w) (abs_parts w p)) as [e|b]; [done|]. simpl.
  by destruct (feather_decode args b).
Qed.

(** [_load] over the base class of the specification. *)
Lemma _load_run {Frame : Type} `{!Feather Frame} (w : World) :
  _load w =
  match resolve_load_path false w with
  | (Ok p, w1) => pd_read_feather p (_load_args (this w)) w1
  | (Raised e, w1) => (Raised e, w1)
  end.
Proof. reflexivity. Qed.

(** X2: [_load] and [_exists] only read: whatever they return or raise, the
    files, the directories and the clock are afterwards what they were.
    [_load] makes at most two calls, the resolution of the load path and, when
    that succeeds, the reader on the resolved path with the stored options;
    [_exists] asks [is_file] in place of the reader. *)
Theorem load_and_exists_only_read
    {Frame : Type} `{!Feather Frame} (w : World) :
  nodes (_load w).2 = nodes w /\ clock (_load w).2 = clock w /\
  nodes (_exists w).2 = nodes w /\ clock (_exists w).2 = clock w /\
  match resolve_load_path false w with
  | (Ok p, _) =>
      events w (_load w).2
      = [EvGetLoadPath; EvReadFeather p (_load_args (this w))] /\
      events w (_exists w).2 = [EvGetLoadPath; EvIsFile p]
  | (Raised _, _) =>
      events w (_load w).2 = [EvGetLoadPath] /\
      events w (_exists w).2 = [EvGetLoadPath]
  end.
Proof.
  rewrite _load_run, _exists_run.
  pose proof (resolve_load_world false w) as Hw.
  destruct (resolve_load_path false w) as [[p|e] w1]; simpl in Hw; subst w1.
  - rewrite pd_read_feather_world. simpl. autorewrite with world.
    split_and!; try done; apply events_app; autorewrite with world;
      by rewrite <- app_assoc.
  - simpl. autorewrite with world.
    split_and!; try done; by apply events_app.
Qed.

(** ** [_exists] foretells [_load] *)


(** ** What a save does to the files *)

(** Whenever [mkdir_from] returns, it has only added directories, and every
    directory on the way is there. *)
Lemma mkdir_from_effect (fs fs' : gmap (list string) Node) (seen rest : list string) :
  mkdir_from fs seen rest = inr fs' ->
  (forall k, fs' !! k = fs !! k \/ (fs !! k = None /\ fs' !! k = Some Dir)) /\
  (forall r, r <> [] -> r `prefix_of` rest -> fs' !! (seen ++ r) = Some Dir).
Proof.
  revert fs seen. induction rest as [|c rest IH]; intros fs seen; simpl.
  - intros [= <-]. split; [by left|].
    intros r Hr Hp. by apply prefix_nil_inv in Hp.
  - assert (Hstep : forall fs0,
              fs0 !! (seen ++ [c]) = Some Dir ->
              mkdir_from fs0 (seen ++ [c]) rest = inr fs' ->
              (forall k, fs' !! k = fs0 !! k \/
                         (fs0 !! k = None /\ fs' !! k = Some Dir)) /\
              (forall r, r <> [] -> r `prefix_of` c :: rest ->
                         fs' !! (seen ++ r) = Some Dir)).
    { intros fs0 Hd Hrun. destruct (IH _ _ Hrun) as [Hadd Hdirs].
      split; [done|].
      intros r Hr Hp. destruct r as [|c' r]; [done|].
      pose proof (prefix_cons_inv_1 _ _ _ _ Hp) as ->.
      apply prefix_cons_inv_2 in Hp.
      destruct (decide (r = [])) as [->|Hne].
      - destruct (Hadd (seen ++ [c])) as [Heq|[Hnone _]]; congruence.
      - change (c :: r) with ([c] ++ r). rewrite app_assoc. by apply Hdirs. }
    destruct (fs !! (seen ++ [c])) as [[|b]|] eqn:E; [|discriminate|].
    + by apply Hstep.
    + intros Hrun.
      destruct (Hstep (<[seen ++ [c] := Dir]> fs)) as [Hadd Hdirs];
        [apply lookup_insert_eq|done|].
      split; [|done].
      intros k. destruct (decide (k = seen ++ [c])) as [->|Hk].
      * right. split; [done|].
        destruct (Hadd (seen ++ [c])) as [Heq|[Hnone _]].
        -- by rewrite Heq, lookup_insert_eq.
        -- by rewrite lookup_insert_eq in Hnone.
      * destruct (Hadd k) as [Heq|[Hnone Hd]].
        -- left. by rewrite Heq, lookup_insert_ne.
        -- right. by rewrite lookup_insert_ne in Hnone.
Qed.

Lemma fs_mkdir_p_files (fs fs' : gmap (list string) Node) (k : list string) :
  fs_mkdir_p fs k = inr fs' -> forall k0, file_at fs' k0 = file_at fs k0.
Proof.
  intros Hrun k0. apply mkdir_from_effect in Hrun as [Hadd _].
  unfold file_at. destruct (Hadd k0) as [->|[-> ->]]; done.
Qed.

Lemma same_files_but_refl t w : same_files_but t w w.
Proof. by split_and!. Qed.

Lemma same_files_but_trans t w1 w2 w3 :
  same_files_but t w1 w2 -> same_files_but t w2 w3 -> same_files_but t w1 w3.
Proof.
  intros (Hc1 & Ht1 & Hf1) (Hc2 & Ht2 & Hf2). split_and!; try congruence.
  intros k Hk. by rewrite Hf2, Hf1.
Qed.

Lemma same_files_but_log t ev w : same_files_but t w (log ev w).
Proof. by split_and!. Qed.

Lemma resolve_save_path_files t (w : World) :
  same_files_but t w (resolve_save_path w).2 /\
  forall sp, (resolve_save_path w).1 = Ok sp -> sp = save_target w.
Proof.
  unfold resolve_save_path, save_target. step. simpl.
  destruct (_version (this w)) as [version|];
    [|split; [by split_and! | by intros sp [= <-]]].
  destruct (save version) as [v|]; simpl; autorewrite with world;
    (destruct (fs_mkdir_p _ _) as [e|fs] eqn:Hmk; simpl;
     [split; [by split_and! | intros sp; discriminate]|]);
    (split; [|by intros sp [= <-]]); (split_and!; try done);
    intros k _; autorewrite with world; by eapply fs_mkdir_p_files.
Qed.

Lemma os_mkdir_files t (p : Path) (w : World) :
  same_files_but t w (os_mkdir p w).2.
Proof.
  unfold os_mkdir. step. simpl. autorewrite with world.
  destruct (fs_mkdir_p _ _) as [e|fs] eqn:Hmk; simpl; [by split_and!|].
  split_and!; try done. intros k _. autorewrite with world.
  by eapply fs_mkdir_p_files.
Qed.

Lemma pd_to_feather_files {Frame : Type} `{!Feather Frame}
    (data : Frame) (p : Path) (w : World) :
  same_files_but (abs_parts w p) w (pd_to_feather data p w).2.
Proof.
  unfold pd_to_feather. step. simpl.
  destruct (feather_encode data) as [e|b]; simpl; [by split_and!|].
  autorewrite with world.
  destruct (fs_write _ _ _) as [e|fs] eqn:Hwr; simpl; [by split_and!|].
  apply fs_write_inv in Hwr as (-> & _ & _).
  split_and!; try done. intros k Hk. autorewrite with world.
  unfold file_at. by rewrite lookup_insert_ne.
Qed.

(** The world [_save] ends in, step by step. *)
Lemma _save_world {Frame : Type} `{!Feather Frame} (data : Frame) (w : World) :
  (_save data w).2 =
  match resolve_save_path w with
  | (Raised _, wa) => wa
  | (Ok sp, wa) =>
      match os_mkdir (Path_parent sp) wa with
      | (Raised _, wb) => wb
      | (Ok _, wb) =>
          match pd_to_feather data sp wb with
          | (Raised _, w1) => w1
          | (Ok _, w1) =>
              match resolve_load_path false w1 with
              | (Raised _, w2) => w2
              | (Ok lp, w2) =>
                  log (EvCheckPaths (absolute_in (cwd w2) lp)
                                    (absolute_in (cwd w2) sp)) w2
              end
          end
      end
  end.
Proof.
  unfold _save, mbind, M_bind.
  change (@_get_save_path Frame _) with resolve_save_path.
  change (@Path_mkdir Frame _) with os_mkdir.
  change (@to_feather Frame _) with (pd_to_feather (Frame := Frame)).
  change (@_get_load_path Frame _) with (resolve_load_path false).
  change (@Path_absolute Frame _) with os_absolute.
  change (@_check_paths_consistency Frame _) with check_paths_consistency.
  destruct (resolve_save_path w) as [[sp|e] wa]; [|done].
  destruct (os_mkdir (Path_parent sp) wa) as [[[]|e] wb]; [|done].
  destruct (pd_to_feather data sp wb) as [[[]|e] w1]; [|done].
  destruct (resolve_load_path false w1) as [[lp|e] w2]; [|done].
  rewrite !os_absolute_run, check_paths_consistency_run. done.
Qed.


(** X5: after a [_save] that returned, [_exists] on the same instance answers
    [True]. *)
Theorem exists_after_successful_save
    {Frame : Type} `{!Feather Frame} (data : Frame) (w w1 : World) :
  _save data w = (Ok tt, w1) -> (_exists w1).1 = Ok true.
Proof.
  intros Hsaved.
  destruct (_save_ok_inv data w w1 Hsaved)
    as (save_path & load_path & b & Henc & Hthis & Hcwd & Hload & Heq
        & Hne & Hfile).
  rewrite _exists_run, Hload. simpl. f_equal.
  assert (Hparts : abs_parts w1 load_path = abs_parts w save_path).
  { unfold abs_parts. by rewrite Hcwd, Heq. }
  unfold is_file_at. rewrite Hparts, fs_lookup_ne by done. by rewrite Hfile.
Qed.

Lemma exists_after_successful_save_witness :
  _save frame1 (fresh_world plain)
  = (Ok tt, (_save frame1 (fresh_world plain)).2) /\
  (_exists (_save frame1 (fresh_world plain)).2).1 = Ok true.
Proof.
  assert (Hsave : _save frame1 (fresh_world plain)
                  = (Ok tt, (_save frame1 (fresh_world plain)).2)).
  { vm_compute. reflexivity. }
  split; [exact Hsave|].
  exact (exists_after_successful_save frame1 (fresh_world plain) _ Hsave).
Defined.

(** The first two statements of [_save] where a file can be created. *)
Lemma save_prepared (w : World) :
  parts (save_target w) <> [] ->
  can_create (nodes w) (abs_parts w (save_target w)) ->
  exists wa wb,
    resolve_save_path w = (Ok (save_target w), wa) /\
    os_mkdir (Path_parent (save_target w)) wa = (Ok tt, wb) /\
    this wb = this w /\ cwd wb = cwd w /\
    trace wb = trace w ++ [EvGetSavePath; EvMkdir (Path_parent (save_target w))] /\
    can_create (nodes wb) (abs_parts w (save_target w)) /\
    (forall k', k' `prefix_of` removelast (abs_parts w (save_target w)) ->
                is_dir_at (nodes wb) k' = true).
Proof.
  intros Hparts Hcan.
  destruct (resolve_save_path_ok w Hparts Hcan)
    as (wa & Hsave & Hta & Hca & Htra & Hcana & _).
  rewrite <- (abs_parts_same_cwd w wa _ Hca) in Hcana.
  destruct (os_mkdir_ok _ wa Hparts Hcana)
    as (wb & Hmk & Htb & Hcb & Htrb & Hcanb & Hdirs & _).
  rewrite (abs_parts_same_cwd w wa _ Hca) in Hcanb, Hdirs.
  exists wa, wb. split_and!; try done; try congruence.
  rewrite Htrb, Htra, <- app_assoc. done.
Qed.

Lemma pd_to_feather_refused {Frame : Type} `{!Feather Frame}
    (data : Frame) (e : Exc) (p : Path) (w : World) :
  feather_encode data = inl e ->
  pd_to_feather data p w = (Raised e, log (EvToFeather p) w).
Proof.
  intros Henc. unfold pd_to_feather. step. simpl. by rewrite Henc.
Qed.



Lemma versioned_path_inj w (base : Path) (v v' : string) :
  absolute_in (cwd w) (versioned_path base v)
  = absolute_in (cwd w) (versioned_path base v') -> v = v'.
Proof.
  intros Heq. apply (f_equal parts) in Heq.
  change (abs_parts w (versioned_path base v)
          = abs_parts w (versioned_path base v')) in Heq.
  rewrite !abs_parts_versioned in Heq. apply app_inv_head in Heq.
  by injection Heq.
Qed.

(** X7: the consistency check comes after the write and nothing undoes the
    write.  For a dataset whose load and save identifiers are pinned to
    different versions, a [_save] that gets as far as writing always raises
    [InconsistentVersionError], and the frame is nevertheless in the file of
    the save version. *)
Theorem pinned_apart_save_writes_then_fails
    {Frame : Type} `{!Feather Frame}
    (data : Frame) (b : Bytes) (w : World) (version : Version) (vl vs : string) :
  _version (this w) = Some version ->
  load version = Some vl -> save version = Some vs -> vl <> vs ->
  feather_encode data = inr b ->
  can_create (nodes w) (abs_parts w (save_target w)) ->
  exists e w',
    _save data w = (Raised e, w') /\
    exc_class e = InconsistentVersionError /\
    save_target w = versioned_path (_filepath (this w)) vs /\
    file_at (nodes w') (abs_parts w (save_target w)) = Some b.
Proof.
  intros Hv Hl Hs Hne Henc Hcan.
  assert (Htarget : save_target w = versioned_path (_filepath (this w)) vs).
  { unfold save_target. by rewrite Hv, Hs. }
  assert (Hparts : parts (save_target w) <> []).
  { rewrite Htarget. simpl. intros E. by apply app_eq_nil in E as [_ ?]. }
  destruct (save_prepared w Hparts Hcan)
    as (wa & wb & Hsave & Hmk & Htb & Hcb & Htrb & Hcanb & Hdirs).
  destruct Hcanb as (Hnonempty & _ & Hnotdirb).
  pose proof (pd_to_feather_ok data b (save_target w) wb Henc) as Hwr.
  rewrite (abs_parts_same_cwd w wb _ Hcb) in Hwr.
  specialize (Hwr Hnonempty (Hdirs _ (reflexivity _)) Hnotdirb).
  set (w1 := set_nodes _ _) in Hwr.
  destruct (_save_tail data w wa wb w1 _ Hsave Hmk Hwr)
    as (load_path & Hload & Hrun & _).
  simpl in Hrun.
  change (_get_load_path w1) with (resolve_load_path false w1) in Hload.
  assert (Hthis1 : this w1 = this w) by (subst w1; by autorewrite with world).
  rewrite (resolve_load_pinned w1 version vl) in Hload
    by (by rewrite ?Hthis1).
  injection Hload as <-. rewrite ?Hthis1 in Hrun.
  rewrite decide_False in Hrun.
  2:{ rewrite Htarget, Htb. intros Heq. by apply versioned_path_inj in Heq. }
  do 2 eexists. split; [exact Hrun|]. split; [done|]. split; [done|].
  subst w1. autorewrite with world. unfold file_at.
  by rewrite lookup_insert_eq.
Qed.

Lemma pinned_apart_save_writes_then_fails_witness :
  let w := fresh_world diverging in
  (_version (this w) = Some (mkVersion (Some "v1") (Some "v2")) /\
   load (mkVersion (Some "v1") (Some "v2")) = Some "v1" /\
   save (mkVersion (Some "v1") (Some "v2")) = Some "v2" /\
   "v1" <> "v2" /\
   feather_encode frame1 = inr frame1 /\
   can_create (nodes w) (abs_parts w (save_target w))) /\
  exists e w',
    _save frame1 w = (Raised e, w') /\
    exc_class e = InconsistentVersionError /\
    save_target w = versioned_path (_filepath (this w)) "v2" /\
    file_at (nodes w') (abs_parts w (save_target w)) = Some frame1.
Proof.
  assert (H1 : _version (this (fresh_world diverging))
               = Some (mkVersion (Some "v1") (Some "v2"))) by reflexivity.
  assert (H2 : load (mkVersion (Some "v1") (Some "v2")) = Some "v1")
    by reflexivity.
  assert (H3 : save (mkVersion (Some "v1") (Some "v2")) = Some "v2")
    by reflexivity.
  assert (H4 : "v1" <> "v2") by discriminate.
  assert (H5 : feather_encode frame1 = inr frame1) by reflexivity.
  assert (H6 : can_create (nodes (fresh_world diverging))
                 (abs_parts (fresh_world diverging)
                    (save_target (fresh_world diverging)))).
  { split; [vm_compute; done|]. split; [|vm_compute; reflexivity].
    intros k _. destruct k; reflexivity. }
  split; [by split_and!|].
  exact (pinned_apart_save_writes_then_fails frame1 frame1
           (fresh_world diverging) _ "v1" "v2" H1 H2 H3 H4 H5 H6).
Defined.

(** ** Saving again *)

Lemma fs_write_not_dir (fs fs' : gmap (list string) Node) (k : list string) (b : Bytes) :
  fs_write fs k b = inr fs' -> fs !! k <> Some Dir.
Proof.
  unfold fs_write. destruct k as [|c k]; [discriminate|].
  destruct (fs_lookup fs (removelast (c :: k))) as [[|?]|]; try discriminate.
  by destruct (fs !! (c :: k)) as [[|?]|].
Qed.

(** The files and directories a [_save] that returned leaves behind. *)
Lemma _save_ok_state {Frame : Type} `{!Feather Frame}
    (data : Frame) (w w1 : World) :
  _save data w = (Ok tt, w1) ->
  exists b fs1,
    this w1 = this w /\ cwd w1 = cwd w /\
    nodes w1 = <[abs_parts w (save_target w) := File b]> fs1 /\
    abs_parts w (save_target w) <> [] /\
    fs1 !! abs_parts w (save_target w) <> Some Dir /\
    (forall r, r <> [] ->
               r `prefix_of` abs_parts w (Path_parent (save_target w)) ->
               fs1 !! r = Some Dir).
Proof.
  unfold _save. intros H.
  apply bind_inv_ok in H as (save_path & wa & Hsave & H).
  apply bind_inv_ok in H as ([] & wb & Hmk & H).
  apply bind_inv_ok in H as ([] & w' & Hwr & H).
  apply bind_inv_ok in H as (load_path & w2 & Hload & H).
  apply bind_inv_ok in H as (load_abs & w3 & Hla & H).
  apply bind_inv_ok in H as (save_abs & w4 & Hsa & H).
  change (@Path_absolute Frame _) with os_absolute in *.
  change (@_check_paths_consistency Frame _) with check_paths_consistency in *.
  change (@_get_load_path Frame _) with (resolve_load_path false) in *.
  change (@_get_save_path Frame _) with resolve_save_path in *.
  change (@Path_mkdir Frame _) with os_mkdir in *.
  change (@to_feather Frame _) with (pd_to_feather (Frame := Frame)) in *.
  rewrite os_absolute_run in Hla, Hsa.
  injection Hla as <- <-. injection Hsa as <- <-.
  rewrite check_paths_consistency_run in H.
  case_decide as Heq; [|discriminate]. injection H as <-.
  pose proof (resolve_load_world false w') as Hw2. rewrite Hload in Hw2.
  simpl in Hw2. subst w2.
  destruct (resolve_save_path_files [] w) as [_ Hsp].
  rewrite Hsave in Hsp. specialize (Hsp _ eq_refl). subst save_path.
  apply resolve_save_path_inv in Hsave as (Hta & Hca & _ & _).
  apply os_mkdir_inv in Hmk as (fs1 & Hfs1 & ->).
  apply pd_to_feather_inv in Hwr as (b & fs2 & Henc & Hfs2 & ->).
  autorewrite with world in *.
  rewrite (abs_parts_same_cwd w wa _ Hca) in Hfs1.
  rewrite (abs_parts_same_cwd w wa _ Hca) in Hfs2.
  pose proof (fs_write_not_dir _ _ _ _ Hfs2) as Hnotdir.
  apply fs_write_inv in Hfs2 as (-> & Hne & _).
  apply mkdir_from_effect in Hfs1 as [_ Hdirs].
  exists b, fs1. split_and!; try done; congruence.
Qed.

(** X8: a dataset without versioning can be saved over.  After a [_save]
    that returned, a further [_save] of any frame the writer accepts returns
    too, the file at the dataset's path then holds the new frame, and
    [_load] returns what the reader makes of it. *)
Theorem unversioned_save_overwrites
    {Frame : Type} `{!Feather Frame}
    (data1 data2 : Frame) (b2 : Bytes) (w w1 : World) :
  _version (this w) = None ->
  _save data1 w = (Ok tt, w1) ->
  feather_encode data2 = inr b2 ->
  exists w2,
    _save data2 w1 = (Ok tt, w2) /\
    file_at (nodes w2) (abs_parts w (_filepath (this w))) = Some b2 /\
    (_load w2).1 = decoded (_load_args (this w)) b2.
Proof.
  intros Hv Hsaved Henc.
  destruct (_save_ok_state data1 w w1 Hsaved)
    as (b1 & fs1 & Hthis & Hcwd & Hnodes & Hne & Hnotdir & Hdirs).
  assert (Htarget : save_target w = _filepath (this w)).
  { unfold save_target. by rewrite Hv. }
  assert (Htarget1 : save_target w1 = _filepath (this w)).
  { unfold save_target. by rewrite Hthis, Hv. }
  rewrite Htarget in *.
  set (base := _filepath (this w)) in *.
  assert (Habs1 : forall p, abs_parts w1 p = abs_parts w p).
  { intros p. by apply abs_parts_same_cwd. }
  assert (Hparts : parts base <> []).
  { intros Hempty. apply Hnotdir.
    assert (Hparent : abs_parts w (Path_parent base) = abs_parts w base).
    { clear - Hempty. clearbody base. destruct base as [a ps].
      simpl in Hempty. subst ps. by destruct a. }
    apply Hdirs; [done|]. by rewrite Hparent. }
  rewrite abs_parts_parent in Hdirs by done.
  assert (Hcan : can_create (nodes w1) (abs_parts w1 (save_target w1))).
  { rewrite Htarget1, Habs1, Hnodes. split; [done|]. split.
    - intros k' Hp. unfold is_file_at. destruct k' as [|c k']; [done|]. simpl.
      rewrite lookup_insert_ne by (by apply removelast_not_prefix).
      by rewrite Hdirs.
    - unfold is_dir_at. rewrite fs_lookup_ne by done.
      by rewrite lookup_insert_eq. }
  assert (Hparts1 : parts (save_target w1) <> []) by (by rewrite Htarget1).
  destruct (save_prepared w1 Hparts1 Hcan)
    as (wa & wb & Hsave & Hmk & Htb & Hcb & Htrb & Hcanb & Hdirsb).
  rewrite Htarget1 in *. fold base in Hsave, Hmk, Htrb, Hcanb, Hdirsb.
  rewrite Habs1 in Hcanb, Hdirsb.
  destruct Hcanb as (_ & _ & Hnotdirb).
  assert (Hcwdb : cwd wb = cwd w) by congruence.
  pose proof (pd_to_feather_ok data2 b2 base wb Henc) as Hwr.
  rewrite (abs_parts_same_cwd w wb _ Hcwdb) in Hwr.
  specialize (Hwr Hne (Hdirsb _ (reflexivity _)) Hnotdirb).
  set (w' := set_nodes _ _) in Hwr.
  destruct (_save_tail data2 w1 wa wb w' base Hsave Hmk Hwr)
    as (load_path & Hload & Hrun & _).
  simpl in Hrun.
  change (_get_load_path w') with (resolve_load_path false w') in Hload.
  assert (Hthis' : this w' = this w).
  { subst w'. autorewrite with world. congruence. }
  rewrite (resolve_load_unversioned false w') in Hload
    by (by rewrite Hthis').
  assert (Hlp : load_path = base).
  { injection Hload as <-. unfold base. by rewrite <- Hthis'. }
  subst load_path. rewrite decide_True in Hrun by done.
  eexists. split; [exact Hrun|].
  assert (Hfile : nodes w' !! abs_parts w base = Some (File b2)).
  { subst w'. autorewrite with world. apply lookup_insert_eq. }
  split.
  - autorewrite with world. unfold file_at. by rewrite Hfile.
  - rewrite _load_run.
    rewrite (resolve_load_unversioned false)
      by (autorewrite with world; by rewrite Hthis').
    autorewrite with world. rewrite Hthis'. fold base.
    rewrite (pd_read_feather_file base _ _ b2); [done|].
    autorewrite with world.
    rewrite (abs_parts_same_cwd w w' base)
      by (subst w'; by autorewrite with world).
    by rewrite fs_lookup_ne.
Qed.

Lemma unversioned_save_overwrites_witness :
  let w := fresh_world plain in
  (_version (this w) = None /\
   _save frame1 w = (Ok tt, (_save frame1 w).2) /\
   feather_encode frame2 = inr frame2) /\
  exists w2,
    _save frame2 (_save frame1 w).2 = (Ok tt, w2) /\
    file_at (nodes w2) (abs_parts w (_filepath (this w))) = Some frame2 /\
    (_load w2).1 = decoded (_load_args (this w)) frame2.
Proof.
  assert (H1 : _version (this (fresh_world plain)) = None) by reflexivity.
  assert (H2 : _save frame1 (fresh_world plain)
               = (Ok tt, (_save frame1 (fresh_world plain)).2)).
  { vm_compute. reflexivity. }
  assert (H3 : feather_encode frame2 = inr frame2) by reflexivity.
  split; [by split_and!|].
  exact (unversioned_save_overwrites frame1 frame2 frame2
           (fresh_world plain) _ H1 H2 H3).
Defined.

(** ** Reading again *)

Lemma _load_same {Frame : Type} `{!Feather Frame} (w w' : World) :
  this w' = this w -> cwd w' = cwd w -> nodes w' = nodes w ->
  (_load w').1 = (_load w).1.
Proof.
  intros Ht Hc Hn. rewrite !_load_run.
  pose proof (resolve_load_same false w' w Ht Hc Hn) as Hsame.
  pose proof (resolve_load_world false w') as Hw'.
  pose proof (resolve_load_world false w) as Hw.
  destruct (resolve_load_path false w') as [r' w1'],
           (resolve_load_path false w) as [r w1].
  simpl in *. subst. destruct r as [p|e]; [|done].
  rewrite Ht. by apply pd_read_feather_same.
Qed.

Lemma _exists_same {Frame : Type} `{!Feather Frame} (w w' : World) :
  this w' = this w -> cwd w' = cwd w -> nodes w' = nodes w ->
  (_exists w').1 = (_exists w).1.
Proof.
  intros Ht Hc Hn. rewrite !_exists_run.
  pose proof (resolve_load_same false w' w Ht Hc Hn) as Hsame.
  destruct (resolve_load_path false w') as [r' w1'],
           (resolve_load_path false w) as [r w1].
  simpl in *. subst. destruct r as [p|e]; [|done].
  simpl. by rewrite (abs_parts_same_cwd w w' p Hc), Hn.
Qed.

Lemma reads_keep_the_world {Frame : Type} `{!Feather Frame} (w : World) :
  (this (_load w).2 = this w /\ cwd (_load w).2 = cwd w /\
   nodes (_load w).2 = nodes w) /\
  (this (_exists w).2 = this w /\ cwd (_exists w).2 = cwd w /\
   nodes (_exists w).2 = nodes w).
Proof.
  rewrite _load_run, _exists_run.
  pose proof (resolve_load_world false w) as Hw.
  destruct (resolve_load_path false w) as [[p|e] w1]; simpl in Hw; subst w1.
  - by rewrite pd_read_feather_world.
  - done.
Qed.

(** X9: reading can be repeated and the two readers do not disturb each
    other: a second [_load] returns or raises what the first did, [_exists]
    answers the same before and after a [_load], and [_load] does the same
    before and after an [_exists]; a failed [_load] changes nothing for the
    next. *)
Theorem reads_can_be_repeated
    {Frame : Type} `{!Feather Frame} (w : World) :
  (_load (_load w).2).1 = (_load w).1 /\
  (_exists (_exists w).2).1 = (_exists w).1 /\
  (_exists (_load w).2).1 = (_exists w).1 /\
  (_load (_exists w).2).1 = (_load w).1.
Proof.
  destruct (reads_keep_the_world w) as [(Ht & Hc & Hn) (Ht' & Hc' & Hn')].
  split_and!.
  - by apply _load_same.
  - by apply _exists_same.
  - by apply _exists_same.
  - by apply _load_same.
Qed.
